(** * Ollama_SDK: the WebSocket relay servers

    A shallow embedding of the stream handlers of [server.js] and
    [server-activity.js] (the NDJSON reassembly loop run on every [data]
    event of the upstream HTTP body, and the [end] and [error] handlers),
    and of the client registry of [server-activity.js] ([broadcast],
    [sendClientList], [handleSetName], [handleBroadcast]).

    JavaScript strings are sequences of UTF-16 code units, modelled as lists
    of [N].  A chunk is the text [chunk.toString()] hands to the handler.
    The calls a handler makes on a client socket and on the console are
    recorded, in order, as a list of events; what the [ws] library and the
    console do with a call is not part of the model.  [ws.send] returns
    normally on a string; whether it throws on another value is a parameter
    of the handler of [server.js], the one that hands it a value as decoded
    (the [ws] package throws a TypeError on a boolean, for one).  A call
    that throws is not recorded. *)

From Stdlib Require Import String Ascii DecimalString.
From stdpp Require Import base list numbers option sorting.

Set Warnings "-register-all".
Local Open Scope N_scope.

(** ** JavaScript strings *)

Module JS.

Definition char := N.
Definition jsstring := list char.

Definition LF : char := 10.
Definition QUOTE : char := 34.

(** String literals of the development, for ASCII text: [js "{'a':1}"] is
    the JavaScript string [{"a":1}]; an apostrophe stands for the double
    quote. *)
Definition js_char (a : ascii) : char :=
  let c := N_of_ascii a in if c =? 39 then QUOTE else c.

Fixpoint js (s : string) : jsstring :=
  match s with
  | EmptyString => []
  | String a r => js_char a :: js r
  end.

(** [String.prototype.split] with a one code unit separator: the result is
    never empty, and a trailing separator yields a trailing empty segment. *)
Fixpoint split (sep : char) (s : jsstring) : list jsstring :=
  match s with
  | [] => [[]]
  | c :: r =>
      if c =? sep then [] :: split sep r
      else match split sep r with
           | seg :: segs => (c :: seg) :: segs
           | [] => [[c]]
           end
  end.

(** [Array.prototype.pop]: the removed last element ([None] stands for
    [undefined], on an empty array) and the array that is left. *)
Fixpoint pop {A} (l : list A) : option A * list A :=
  match l with
  | [] => (None, [])
  | x :: r =>
      match r with
      | [] => (Some x, [])
      | _ => let (o, r') := pop r in (o, x :: r')
      end
  end.

(** WhiteSpace and LineTerminator code units, as [String.prototype.trim]
    strips them. *)
Definition is_white (c : char) : bool :=
  (c =? 9) || (c =? 10) || (c =? 11) || (c =? 12) || (c =? 13) || (c =? 32)
  || (c =? 160) || (c =? 5760) || ((8192 <=? c) && (c <=? 8202))
  || (c =? 8232) || (c =? 8233) || (c =? 8239) || (c =? 8287)
  || (c =? 12288) || (c =? 65279).

Fixpoint trim_start (s : jsstring) : jsstring :=
  match s with
  | [] => []
  | c :: r => if is_white c then trim_start r else s
  end.

Definition trim (s : jsstring) : jsstring :=
  rev (trim_start (rev (trim_start s))).

(** ToBoolean on a string: the empty string is the only falsy one. *)
Definition nonempty (s : jsstring) : bool :=
  match s with [] => false | _ => true end.

(** [a || b] on strings, with [None] for [undefined]. *)
Definition or_str (a : option jsstring) (b : jsstring) : jsstring :=
  match a with
  | Some s => if nonempty s then s else b
  | None => b
  end.

(** Decimal rendering of a non-negative integer, as a template literal
    renders a small counter. *)
Definition decimal (n : N) : jsstring :=
  js (DecimalString.NilZero.string_of_uint (N.to_uint n)).

(** JavaScript values, as far as [JSON.parse] produces them, and
    [undefined].  A number is kept as the decimal literal it was read from,
    [(-1)^neg * mant * 10^exp10], and stands for the double nearest to it:
    two literals may stand for one number, and a literal beyond the range of
    the doubles stands for an infinity.  The model compares no two numbers
    it has parsed, and where the text of a value is needed it is a
    parameter. *)
Inductive value :=
| Undefined
| Null
| Bool (b : bool)
| Num (neg : bool) (mant : N) (exp10 : Z)
| Str (s : jsstring)
| Arr (items : list value)
| Obj (members : list (jsstring * value)).

(** The literal denotes a double other than zero: its magnitude is above
    half of the least subnormal, 2^-1075 (a tie rounds to even, to zero). *)
Definition nonzero_double (mant : N) (exp10 : Z) : bool :=
  match exp10 with
  | Zneg p => 10 ^ Npos p <? mant * 2 ^ 1075
  | _ => negb (mant =? 0)
  end.

(** ToBoolean. *)
Definition truthy (v : value) : bool :=
  match v with
  | Undefined | Null => false
  | Bool b => b
  | Num _ m e => nonzero_double m e
  | Str s => nonempty s
  | Arr _ | Obj _ => true
  end.

(** Outcome of an expression that may throw. *)
Inductive outcome (A : Type) :=
| Returns (a : A)
| Throws.
Arguments Returns {A} a.
Arguments Throws {A}.

Definition jsstring_eqb (a b : jsstring) : bool := bool_decide (a = b).

(** Own property of an object built by [JSON.parse]: a later duplicate of a
    key overrides an earlier one. *)
Fixpoint lookup_member (key : jsstring) (ms : list (jsstring * value))
  : option value :=
  match ms with
  | [] => None
  | (k, v) :: r =>
      match lookup_member key r with
      | Some w => Some w
      | None => if jsstring_eqb k key then Some v else None
      end
  end.

(** [data.key], for a key that no built-in prototype defines (such as
    [response] and [done]): a TypeError on [null] and [undefined],
    [undefined] when the property is missing. *)
Definition get (data : value) (key : jsstring) : outcome value :=
  match data with
  | Undefined | Null => Throws
  | Obj ms => Returns (default Undefined (lookup_member key ms))
  | _ => Returns Undefined
  end.

(** What a [data] handler makes of the text [s] it splits: the segments
    its loop goes over, and the one it keeps as the new buffer. *)
Definition lines (s : jsstring) : list jsstring := snd (pop (split LF s)).
Definition kept (s : jsstring) : jsstring := or_str (fst (pop (split LF s))) [].

(** The lines the successive [data] handlers go over, chunk by chunk, from
    the buffer the first of them finds. *)
Fixpoint completed (buffer : jsstring) (chunks : list jsstring)
  : list (list jsstring) :=
  match chunks with
  | [] => []
  | chunk :: more =>
      lines (buffer ++ chunk) :: completed (kept (buffer ++ chunk)) more
  end.

(** Empty or all white space. *)
Definition blank (s : jsstring) : Prop := Forall (λ c, is_white c = true) s.

End JS.

(** ** JSON.parse

    The grammar of ECMA-404, as [JSON.parse] accepts it: the four JSON white
    space code units, objects, arrays, strings with their escapes, numbers
    and the three literals.  [None] stands for the SyntaxError. *)

Module JSON.
Import JS.

Definition is_ws (c : char) : bool :=
  (c =? 9) || (c =? 10) || (c =? 13) || (c =? 32).

Fixpoint skip_ws (s : jsstring) : jsstring :=
  match s with
  | [] => []
  | c :: r => if is_ws c then skip_ws r else s
  end.

Definition is_digit (c : char) : bool := (48 <=? c) && (c <=? 57).

Definition hex_digit (c : char) : option N :=
  if is_digit c then Some (c - 48)
  else if (97 <=? c) && (c <=? 102) then Some (c - 87)
  else if (65 <=? c) && (c <=? 70) then Some (c - 55)
  else None.

Definition hex4 (a b c d : char) : option char :=
  match hex_digit a, hex_digit b, hex_digit c, hex_digit d with
  | Some x, Some y, Some z, Some w => Some (((x * 16 + y) * 16 + z) * 16 + w)
  | _, _, _, _ => None
  end.

(** The code unit a one letter escape stands for. *)
Definition escape (e : char) : option char :=
  if e =? 34 then Some 34 else if e =? 92 then Some 92
  else if e =? 47 then Some 47 else if e =? 98 then Some 8
  else if e =? 102 then Some 12 else if e =? 110 then Some 10
  else if e =? 114 then Some 13 else if e =? 116 then Some 9
  else None.

(** The characters of a string, after its opening quote, up to and
    including the closing one; [acc] holds them in reverse. *)
Fixpoint string_chars (s acc : jsstring) : option (jsstring * jsstring) :=
  match s with
  | [] => None
  | c :: r =>
      if c =? 34 then Some (rev acc, r)
      else if c =? 92 then
        match r with
        | [] => None
        | e :: r1 =>
            if e =? 117 then
              match r1 with
              | h1 :: h2 :: h3 :: h4 :: r2 =>
                  match hex4 h1 h2 h3 h4 with
                  | Some u => string_chars r2 (u :: acc)
                  | None => None
                  end
              | _ => None
              end
            else match escape e with
                 | Some x => string_chars r1 (x :: acc)
                 | None => None
                 end
        end
      else if c <? 32 then None
      else string_chars r (c :: acc)
  end.

(** The longest run of decimal digits at the head of [s], read as a number
    after the digits already in [acc], with its length and the rest. *)
Fixpoint digits (s : jsstring) (acc : N) (len : nat) : N * nat * jsstring :=
  match s with
  | c :: r => if is_digit c then digits r (acc * 10 + (c - 48)) (S len)
              else (acc, len, s)
  | [] => (acc, len, s)
  end.

(** int: a single zero, or a run of digits that does not start with one. *)
Definition int_part (s : jsstring) : option (N * jsstring) :=
  match s with
  | c :: r =>
      if c =? 48 then Some (0, r)
      else if is_digit c then
        let '(n, _, r') := digits s 0 0%nat in Some (n, r')
      else None
  | [] => None
  end.

(** frac: nothing, or a point and at least one digit; the digits extend
    the mantissa and lower the exponent. *)
Definition frac_part (m : N) (s : jsstring) : option (N * Z * jsstring) :=
  match s with
  | c :: r =>
      if c =? 46 then
        let '(m', len, r') := digits r m 0%nat in
        match len with
        | O => None
        | _ => Some (m', (- Z.of_nat len)%Z, r')
        end
      else Some (m, 0%Z, s)
  | [] => Some (m, 0%Z, s)
  end.

(** exp: nothing, or [e] or [E], an optional sign and at least one digit. *)
Definition exp_part (s : jsstring) : option (Z * jsstring) :=
  match s with
  | c :: r =>
      if (c =? 101) || (c =? 69) then
        let '(sign, r1) :=
          match r with
          | d :: r0 => if d =? 45 then (true, r0)
                       else if d =? 43 then (false, r0) else (false, r)
          | [] => (false, r)
          end in
        let '(n, len, r') := digits r1 0 0%nat in
        match len with
        | O => None
        | _ => Some (if sign : bool then (- Z.of_N n)%Z else Z.of_N n, r')
        end
      else Some (0%Z, s)
  | [] => Some (0%Z, s)
  end.

Definition number (s : jsstring) : option (value * jsstring) :=
  let '(neg, s1) :=
    match s with
    | c :: r => if c =? 45 then (true, r) else (false, s)
    | [] => (false, s)
    end in
  match int_part s1 with
  | None => None
  | Some (i, s2) =>
      match frac_part i s2 with
      | None => None
      | Some (m, e1, s3) =>
          match exp_part s3 with
          | None => None
          | Some (e2, s4) => Some (Num neg m (e1 + e2)%Z, s4)
          end
      end
  end.

(** [s] starts with the word [w]: what follows it. *)
Fixpoint word (w s : jsstring) : option jsstring :=
  match w with
  | [] => Some s
  | a :: w' =>
      match s with
      | c :: r => if c =? a then word w' r else None
      | [] => None
      end
  end.

(** One value at the head of [s] (no leading white space), and the rest.
    [elements_] reads the items of an array after its first bracket and
    [members_] the members of an object, both up to the closing bracket.
    The recursion is on [fuel]; see [parse] for the amount. *)
Fixpoint value_ (fuel : nat) (s : jsstring) : option (value * jsstring) :=
  match fuel with
  | O => None
  | S fuel =>
      match s with
      | [] => None
      | c :: r =>
          if c =? 123 then
            match skip_ws r with
            | d :: r1 =>
                if d =? 125 then Some (Obj [], r1)
                else members_ fuel (d :: r1) []
            | [] => None
            end
          else if c =? 91 then
            match skip_ws r with
            | d :: r1 =>
                if d =? 93 then Some (Arr [], r1)
                else elements_ fuel (d :: r1) []
            | [] => None
            end
          else if c =? 34 then
            match string_chars r [] with
            | Some (str, r1) => Some (Str str, r1)
            | None => None
            end
          else if c =? 116 then
            match word (js "rue") r with
            | Some r1 => Some (Bool true, r1)
            | None => None
            end
          else if c =? 102 then
            match word (js "alse") r with
            | Some r1 => Some (Bool false, r1)
            | None => None
            end
          else if c =? 110 then
            match word (js "ull") r with
            | Some r1 => Some (Null, r1)
            | None => None
            end
          else number s
      end
  end
with elements_ (fuel : nat) (s : jsstring) (acc : list value)
  : option (value * jsstring) :=
  match fuel with
  | O => None
  | S fuel =>
      match value_ fuel s with
      | None => None
      | Some (v, r) =>
          match skip_ws r with
          | c :: r1 =>
              if c =? 44 then elements_ fuel (skip_ws r1) (v :: acc)
              else if c =? 93 then Some (Arr (rev (v :: acc)), r1)
              else None
          | [] => None
          end
      end
  end
with members_ (fuel : nat) (s : jsstring) (acc : list (jsstring * value))
  : option (value * jsstring) :=
  match fuel with
  | O => None
  | S fuel =>
      match s with
      | q :: r =>
          if q =? 34 then
            match string_chars r [] with
            | None => None
            | Some (k, r1) =>
                match skip_ws r1 with
                | c :: r2 =>
                    if c =? 58 then
                      match value_ fuel (skip_ws r2) with
                      | None => None
                      | Some (v, r3) =>
                          match skip_ws r3 with
                          | d :: r4 =>
                              if d =? 44 then
                                members_ fuel (skip_ws r4) ((k, v) :: acc)
                              else if d =? 125 then
                                Some (Obj (rev ((k, v) :: acc)), r4)
                              else None
                          | [] => None
                          end
                      end
                    else None
                | [] => None
                end
            end
          else None
      | [] => None
      end
  end.

(** [JSON.parse(text)]: one value between optional white space and nothing
    else.  Every recursive call is on a shorter text or follows a call on
    the same text by one step, so twice the length is fuel enough. *)
Definition parse (text : jsstring) : option value :=
  match value_ (2 * length text + 2) (skip_ws text) with
  | Some (v, r) => match skip_ws r with [] => Some v | _ => None end
  | None => None
  end.

End JSON.

(** ** server.js: the handlers of one upstream response

    [buffer] is the closure variable the three handlers share.  An event is
    one call on the client socket [ws] or on the console. *)

Module Server.
Import JS.

Inductive event :=
| WsSend (data : value)                       (* ws.send(data) *)
| WsClose                                     (* ws.close() *)
| ConsoleError (label arg : jsstring).        (* console.error(label, arg) *)

Definition COMPLETE : value :=
  Str ([LF] ++ js "--- generation complete ---" ++ [LF]).
Definition BAD_JSON : jsstring := js "Bad JSON from Ollama:".
Definition STREAM_ERROR : value := Str ([10060] ++ js " Stream error").

Section Socket.

(** [send_throws data]: [ws.send(data)] throws on [data], a value that is
    not a string. *)
Variable send_throws : value → bool.

Definition throws (data : value) : bool :=
  match data with
  | Str _ => false
  | _ => send_throws data
  end.

(** The try statement of the loop body, on one line: the calls it makes,
    and whether it leaves the handler through [return].  A SyntaxError of
    [JSON.parse], a TypeError of a property access and an error thrown by
    [ws.send(data.response)] all end in the catch clause; after the last,
    [data.done] is not looked at. *)
Definition try_line (line : jsstring) : list event * bool :=
  match JSON.parse line with
  | None => ([ConsoleError BAD_JSON line], false)
  | Some data =>
      match get data (js "response") with
      | Throws => ([ConsoleError BAD_JSON line], false)
      | Returns response =>
          if truthy response && throws response
          then ([ConsoleError BAD_JSON line], false)
          else
            let sent := if truthy response then [WsSend response] else [] in
            match get data (js "done") with
            | Throws => (sent ++ [ConsoleError BAD_JSON line], false)
            | Returns done =>
                if truthy done then (sent ++ [WsSend COMPLETE; WsClose], true)
                else (sent, false)
            end
      end
  end.

(** [for (const line of lines)]: a blank line is passed over by [continue],
    and [return] drops the lines that are left. *)
Fixpoint for_lines (lines : list jsstring) : list event :=
  match lines with
  | [] => []
  | line :: rest =>
      if negb (nonempty (trim line)) then for_lines rest
      else
        let '(calls, returned) := try_line line in
        if returned then calls else calls ++ for_lines rest
  end.

(** [response.body.on('data', ...)]: the new [buffer] and the calls made. *)
Definition on_data (buffer chunk : jsstring) : jsstring * list event :=
  let buffer := buffer ++ chunk in
  let lines := split LF buffer in
  let '(popped, lines) := pop lines in
  let buffer := or_str popped [] in
  (buffer, for_lines lines).

(** The body stream delivers its chunks in order to the [data] handler. *)
Fixpoint feed (buffer : jsstring) (chunks : list jsstring)
  : jsstring * list event :=
  match chunks with
  | [] => (buffer, [])
  | chunk :: more =>
      let '(buffer, calls) := on_data buffer chunk in
      let '(buffer, calls') := feed buffer more in
      (buffer, calls ++ calls')
  end.

End Socket.

(** [response.body.on('end', ...)]. *)
Definition on_end (buffer : jsstring) : list event :=
  if nonempty (trim buffer) then
    match JSON.parse buffer with
    | None => [ConsoleError BAD_JSON buffer]
    | Some data =>
        match get data (js "done") with
        | Throws => [ConsoleError BAD_JSON buffer]
        | Returns done =>
            if truthy done then [WsSend COMPLETE; WsClose] else []
        end
    end
  else [].

(** [response.body.on('error', ...)]; [err] is the error as printed. *)
Definition on_error (err : jsstring) : list event :=
  [ConsoleError (js "Stream error:") err; WsSend STREAM_ERROR; WsClose].

(** How the body stream ends: [end], or [error] with its error. *)
Inductive ending :=
| End
| Error (err : jsstring).

(** One whole response: [let buffer = ''], the chunks, then the ending. *)
Definition run (send_throws : value → bool) (chunks : list jsstring)
    (e : ending) : list event :=
  let '(buffer, calls) := feed send_throws [] chunks in
  calls ++ match e with
           | End => on_end buffer
           | Error err => on_error err
           end.

(** What the client of the socket can observe: the calls on [ws]. *)
Definition on_ws (e : event) : bool :=
  match e with ConsoleError _ _ => false | _ => true end.

Definition ws_calls (calls : list event) : list event :=
  List.filter on_ws calls.

(** The calls up to and including the first [ws.close()]. *)
Fixpoint until_close (calls : list event) : list event :=
  match calls with
  | [] => []
  | WsClose :: _ => [WsClose]
  | e :: rest => e :: until_close rest
  end.

(** Every [ws.close()] comes right after the completion text. *)
Definition close_after_complete (calls : list event) : Prop :=
  ∀ pre post, calls = pre ++ WsClose :: post →
              ∃ pre', pre = pre' ++ [WsSend COMPLETE].

End Server.

(** ** server-activity.js

    The stream handlers of [handleChatMessage], then the client registry.
    A frame handed to [JSON.stringify] and sent is recorded as the object
    itself; the time stamp [logClientActivity] prints is left out of its
    event. *)

Module Activity.
Import JS.

Definition socket := N.

Inductive event :=
| WsSend (ws : socket) (frame : value)        (* ws.send(JSON.stringify(frame)) *)
| LogActivity (clientId : N) (activity : jsstring) (data : value)
| ConsoleError (label arg : jsstring).

(** A number that is a small non-negative integer. *)
Definition num (n : N) : value := Num false n 0.

Definition BAD_JSON : jsstring := js "Bad JSON from Ollama:".
Definition BAD_FINAL_JSON : jsstring := js "Bad final JSON from Ollama:".

Section handleChatMessage.

(** What the handlers close over: the client's id, [client.ws] and
    [payload.model]. *)
Variables (clientId : N) (ws : socket) (model : value).

Definition stream_frame (content : value) : value :=
  Obj [(js "type", Str (js "stream")); (js "content", content)].

Definition stats (tokens : N) : value :=
  Obj [(js "tokens", num tokens); (js "model", model)].

Definition stream_end_stats (tokens : N) : value :=
  Obj [(js "type", Str (js "stream_end"));
       (js "message", Str (js "Generation complete"));
       (js "stats", stats tokens)].

Definition stream_end : value :=
  Obj [(js "type", Str (js "stream_end"));
       (js "message", Str (js "Generation complete"))].

Definition stream_error : value :=
  Obj [(js "type", Str (js "error"));
       (js "message", Str (js "Stream error occurred"))].

(** The try statement of the loop body on one line, from the count
    [responseTokens]: the new count and the calls. *)
Definition try_line (responseTokens : N) (line : jsstring) : N * list event :=
  match JSON.parse line with
  | None => (responseTokens, [ConsoleError BAD_JSON line])
  | Some responseData =>
      match get responseData (js "response") with
      | Throws => (responseTokens, [ConsoleError BAD_JSON line])
      | Returns response =>
          let '(responseTokens, sent) :=
            if truthy response
            then (responseTokens + 1, [WsSend ws (stream_frame response)])
            else (responseTokens, []) in
          match get responseData (js "done") with
          | Throws => (responseTokens, sent ++ [ConsoleError BAD_JSON line])
          | Returns done =>
              if truthy done then
                (responseTokens,
                 sent ++ [LogActivity clientId (js "OLLAMA_COMPLETE")
                            (stats responseTokens);
                          WsSend ws (stream_end_stats responseTokens)])
              else (responseTokens, sent)
          end
      end
  end.

(** [for (const line of lines)]; nothing leaves the loop early. *)
Fixpoint for_lines (responseTokens : N) (lines : list jsstring)
  : N * list event :=
  match lines with
  | [] => (responseTokens, [])
  | line :: rest =>
      if negb (nonempty (trim line)) then for_lines responseTokens rest
      else
        let '(responseTokens, calls) := try_line responseTokens line in
        let '(responseTokens, calls') := for_lines responseTokens rest in
        (responseTokens, calls ++ calls')
  end.

(** The closure variables [buffer] and [responseTokens]. *)
Record state := State { buffer : jsstring; responseTokens : N }.

Definition initial : state := State [] 0.

(** [response.body.on('data', ...)]. *)
Definition on_data (st : state) (chunk : jsstring) : state * list event :=
  let buffer := buffer st ++ chunk in
  let lines := split LF buffer in
  let '(popped, lines) := pop lines in
  let buffer := or_str popped [] in
  let '(responseTokens, calls) := for_lines (responseTokens st) lines in
  (State buffer responseTokens, calls).

(** [response.body.on('end', ...)]. *)
Definition on_end (st : state) : list event :=
  if nonempty (trim (buffer st)) then
    match JSON.parse (buffer st) with
    | None => [ConsoleError BAD_FINAL_JSON (buffer st)]
    | Some responseData =>
        match get responseData (js "done") with
        | Throws => [ConsoleError BAD_FINAL_JSON (buffer st)]
        | Returns done => if truthy done then [WsSend ws stream_end] else []
        end
    end
  else [].

(** [response.body.on('error', ...)]; [message] is [err.message]. *)
Definition on_error (message : value) : list event :=
  [LogActivity clientId (js "STREAM_ERROR") (Obj [(js "error", message)]);
   WsSend ws stream_error].

Fixpoint feed (st : state) (chunks : list jsstring) : state * list event :=
  match chunks with
  | [] => (st, [])
  | chunk :: more =>
      let '(st, calls) := on_data st chunk in
      let '(st, calls') := feed st more in
      (st, calls ++ calls')
  end.

Inductive ending :=
| End
| Error (message : value).

Definition run (chunks : list jsstring) (e : ending) : list event :=
  let '(st, calls) := feed initial chunks in
  calls ++ match e with
           | End => on_end st
           | Error message => on_error message
           end.

End handleChatMessage.

(** What reaches a client: the frames sent on its socket. *)
Definition frames (calls : list event) : list (socket * value) :=
  omap (λ e, match e with WsSend w f => Some (w, f) | _ => None end) calls.

(** No frame among the calls is the [error] frame of the error handler. *)
Definition no_error_frame (calls : list event) : Prop :=
  Forall (λ p, snd p ≠ stream_error) (frames calls).

(** *** The registry

    [clients] is a [Map] from client id to the client's record; entries
    are kept in the order of insertion, which is the order [forEach] and
    [entries()] visit them in. *)

Record clientInfo := ClientInfo {
  client_ws : socket;
  name : value;
  connectedAt : N;
  lastActivity : N;
  ip : value;
  userAgent : value
}.

Definition registry := list (N * clientInfo).

(** [clients.get(id)]. *)
Fixpoint map_get (id : N) (clients : registry) : option clientInfo :=
  match clients with
  | [] => None
  | (k, c) :: rest => if k =? id then Some c else map_get id rest
  end.

(** An assignment to a field of the record [clients.get(id)] returned:
    the record in the registry is that same object. *)
Fixpoint map_update (id : N) (f : clientInfo → clientInfo) (clients : registry)
  : registry :=
  match clients with
  | [] => []
  | (k, c) :: rest =>
      if k =? id then (k, f c) :: rest else (k, c) :: map_update id f rest
  end.

(** [clients.forEach((client, id) => ...)], collecting the calls made. *)
Fixpoint forEach (clients : registry) (callback : clientInfo → N → list event)
  : list event :=
  match clients with
  | [] => []
  | (id, client) :: rest => callback client id ++ forEach rest callback
  end.

(** The record [wss.on('connection')] registers for a new client;
    [now] and [now'] are its two readings of [Date.now()]. *)
Definition new_client (clientId : N) (ws : socket) (now now' : N)
    (ip userAgent : value) : clientInfo :=
  ClientInfo ws (Str (js "Client-" ++ decimal clientId)) now now' ip userAgent.

Definition set_name (n : value) (c : clientInfo) : clientInfo :=
  ClientInfo (client_ws c) n (connectedAt c) (lastActivity c) (ip c)
             (userAgent c).

Section Registry.

(** The environment: the [readyState] of every socket,
    [Date.prototype.toISOString] on a time in milliseconds, and ToString as
    a template literal applies it.  The clock is an argument of what reads
    it: [stamp id] is [new Date().toISOString()] as read while [broadcast]
    visits client [id]. *)
Variables (readyState : socket → N)
          (toISOString : N → jsstring)
          (ToString : value → jsstring).

Definition broadcast_frame (stamp : N → jsstring) (message : value) (id : N)
  : value :=
  Obj [(js "type", Str (js "broadcast"));
       (js "message", message);
       (js "timestamp", Str (stamp id))].

(** [id !== excludeClientId]; [None] is the default, [null]. *)
Definition differs (id : N) (excludeClientId : option N) : bool :=
  match excludeClientId with
  | Some x => negb (id =? x)
  | None => true
  end.

(** [broadcast(message, excludeClientId = null)]. *)
Definition broadcast (stamp : N → jsstring) (clients : registry)
    (message : value) (excludeClientId : option N) : list event :=
  forEach clients (λ client id,
    if differs id excludeClientId && (readyState (client_ws client) =? 1)
    then [WsSend (client_ws client) (broadcast_frame stamp message id)]
    else []).

(** [sendClientList()]. *)
Definition sendClientList (stamp : N → jsstring) (clients : registry)
  : list event :=
  let clientList :=
    map (λ '(id, client),
           Obj [(js "id", num id);
                (js "name", name client);
                (js "connected", Str (toISOString (connectedAt client)));
                (js "lastActivity", num (lastActivity client))])
        clients in
  broadcast stamp clients
    (Obj [(js "type", Str (js "client_list")); (js "clients", Arr clientList)])
    None.

(** [newName || `Client-${clientId}`]. *)
Definition name_or_default (clientId : N) (newName : value) : value :=
  if truthy newName then newName else Str (js "Client-" ++ decimal clientId).

(** [handleSetName(clientId, newName)]: the registry after the call and
    the calls made; [stamp] and [stamp'] are the clock of its two
    broadcasts. *)
Definition handleSetName (stamp stamp' : N → jsstring) (clients : registry)
    (clientId : N) (newName : value) : registry * list event :=
  match map_get clientId clients with
  | None => (clients, [])
  | Some client =>
      let oldName := name client in
      let clients :=
        map_update clientId (set_name (name_or_default clientId newName))
                   clients in
      let client := set_name (name_or_default clientId newName) client in
      (clients,
       [LogActivity clientId (js "NAME_CHANGED")
          (Obj [(js "oldName", oldName); (js "newName", name client)]);
        WsSend (client_ws client)
          (Obj [(js "type", Str (js "name_set"));
                (js "name", name client);
                (js "message",
                 Str (js "Name changed to: " ++ ToString (name client)))])]
       ++ broadcast stamp clients
            (Obj [(js "type", Str (js "client_name_changed"));
                  (js "clientId", num clientId);
                  (js "oldName", oldName);
                  (js "newName", name client)])
            (Some clientId)
       ++ sendClientList stamp' clients)
  end.

(** [handleBroadcast(clientId, message)]; [now] is the time stamp put in
    the message.  [message.substring] throws unless [message] is a
    string. *)
Definition handleBroadcast (now : jsstring) (stamp : N → jsstring)
    (clients : registry) (clientId : N) (message : value)
  : outcome (list event) :=
  match map_get clientId clients with
  | None => Returns []
  | Some client =>
      match message with
      | Str text =>
          Returns
            ([LogActivity clientId (js "BROADCAST_SENT")
                (Obj [(js "message", Str (take 50 text ++ js "..."))])]
             ++ broadcast stamp clients
                  (Obj [(js "type", Str (js "user_broadcast"));
                        (js "from", name client);
                        (js "fromId", num clientId);
                        (js "message", message);
                        (js "timestamp", Str now)])
                  (Some clientId)
             ++ [WsSend (client_ws client)
                   (Obj [(js "type", Str (js "broadcast_sent"));
                         (js "message",
                          Str (js "Message broadcasted to all clients"))])])
      | _ => Throws
      end
  end.

End Registry.

(** *** Connections, messages and requests

    The rest of the handlers of [wss.on('connection')].  A caught error is
    kept as what threw; the text of its [message] is the engine's. *)

Inductive error :=
| SyntaxError (text : jsstring)     (* JSON.parse(text) *)
| TypeError (expr : jsstring).      (* a property of null or undefined, or
                                       a call of what is no function *)

(** [clients.set(id, client)]: a new key goes last, a known key keeps its
    place. *)
Fixpoint map_set (id : N) (c : clientInfo) (clients : registry) : registry :=
  match clients with
  | [] => [(id, c)]
  | (k, d) :: rest =>
      if k =? id then (k, c) :: rest else (k, d) :: map_set id c rest
  end.

(** [clients.delete(id)]. *)
Fixpoint map_delete (id : N) (clients : registry) : registry :=
  match clients with
  | [] => []
  | (k, d) :: rest => if k =? id then rest else (k, d) :: map_delete id rest
  end.

(** [clients.size]. *)
Definition map_size (clients : registry) : N := N.of_nat (length clients).

Definition set_lastActivity (now : N) (c : clientInfo) : clientInfo :=
  ClientInfo (client_ws c) (name c) (connectedAt c) now (ip c) (userAgent c).

(** [a || b]. *)
Definition or_value (a b : value) : value := if truthy a then a else b.

(** [data.prompt?.substring(0, 50) + '...']: the optional chain stops at
    [undefined] and [null], and the sum then spells [undefined]; on what is
    neither of these nor a string, [substring] is no function. *)
Definition prompt_preview (prompt : value) : outcome jsstring :=
  match prompt with
  | Undefined | Null => Returns (js "undefined...")
  | Str text => Returns (take 50 text ++ js "...")
  | _ => Throws
  end.

Definition invalid_format : value :=
  Obj [(js "type", Str (js "error"));
       (js "message", Str (js "Invalid message format"))].

Definition internal_error : value :=
  Obj [(js "type", Str (js "error"));
       (js "message", Str (js "Internal server error"))].

Definition connecting_error (status : N) : value :=
  Obj [(js "type", Str (js "error"));
       (js "message",
        Str ([10060] ++ js " Error connecting to Ollama: " ++ decimal status))].

(** What [await fetch(...)] gives: a rejection, with the message of its
    error, or a response with its [status], [ok] and whether it has a
    [body]. *)
Inductive fetched :=
| Rejected (message : jsstring)
| Response (status : N) (ok has_body : bool).

(** The server: the counter of ids and the registry. *)
Record server := mkServer { clientIdCounter : N; clients : registry }.

Section Connection.

(** The environment of [Section Registry], [toLocaleString] of a time, the
    text of the message of an error, and the model of the configuration,
    [process.env.OLLAMA_MODEL || "llama2"]. *)
Variables (readyState : socket → N)
          (toISOString toLocaleString : N → jsstring)
          (ToString : value → jsstring)
          (errorMessage : error → jsstring)
          (OLLAMA_MODEL : jsstring).

(** [wss.on('connection', (ws, req) => ...)] up to the registration of the
    handlers: the new id, the server after it and the calls made.  [now]
    and [now'] are the two readings of [Date.now()], [ip] and [userAgent]
    come from the request. *)
Definition on_connection (stamp : N → jsstring) (s : server) (ws : socket)
    (now now' : N) (ip userAgent : value) : N * server * list event :=
  let clientId := clientIdCounter s + 1 in
  let clientInfo := new_client clientId ws now now' ip userAgent in
  let clients := map_set clientId clientInfo (clients s) in
  (clientId, mkServer clientId clients,
   [LogActivity clientId (js "CONNECTED")
      (Obj [(js "ip", ip); (js "userAgent", userAgent)]);
    WsSend ws
      (Obj [(js "type", Str (js "welcome"));
            (js "clientId", num clientId);
            (js "message",
             Str (js "Welcome! You are Client " ++ decimal clientId));
            (js "connectedClients", num (map_size clients))])]
   ++ sendClientList readyState toISOString stamp clients).

(** [handleGetClients(clientId)]. *)
Definition handleGetClients (clients : registry) (clientId : N) : list event :=
  match map_get clientId clients with
  | None => []
  | Some client =>
      let clientList :=
        map (λ '(id, c),
               Obj [(js "id", num id);
                    (js "name", name c);
                    (js "connected", Str (toLocaleString (connectedAt c)));
                    (js "lastActivity",
                     Str (toLocaleString (lastActivity c)));
                    (js "isYou", Bool (id =? clientId))])
            clients in
      [WsSend (client_ws client)
         (Obj [(js "type", Str (js "client_list"));
               (js "clients", Arr clientList)]);
       LogActivity clientId (js "REQUESTED_CLIENT_LIST") (Obj [])]
  end.

(** The catch clause of [handleChatMessage]. *)
Definition chat_catch (clientId : N) (ws : socket) (message : jsstring)
  : list event :=
  [LogActivity clientId (js "SERVER_ERROR") (Obj [(js "error", Str message)]);
   WsSend ws internal_error].

(** [handleChatMessage(clientId, data)] up to [await fetch(...)]: the calls
    made, and the payload object handed to [JSON.stringify] for the body of
    the request, when the request is made. *)
Definition chat_request (clients : registry) (clientId : N) (data : value)
  : list event * option value :=
  match map_get clientId clients with
  | None => ([], None)
  | Some client =>
      match get data (js "model") with
      | Throws =>
          (chat_catch clientId (client_ws client)
             (errorMessage (TypeError (js "data.model"))), None)
      | Returns model =>
          match get data (js "prompt") with
          | Throws =>
              (chat_catch clientId (client_ws client)
                 (errorMessage (TypeError (js "data.prompt"))), None)
          | Returns prompt =>
              let payload :=
                Obj [(js "model", or_value model (Str OLLAMA_MODEL));
                     (js "prompt", prompt);
                     (js "stream", Bool true)] in
              match prompt with
              | Str text =>
                  ([LogActivity clientId (js "OLLAMA_REQUEST")
                      (Obj [(js "model", or_value model (Str OLLAMA_MODEL));
                            (js "prompt", Str (take 100 text ++ js "..."))])],
                   Some payload)
              | _ =>
                  (chat_catch clientId (client_ws client)
                     (errorMessage
                        (TypeError (js "payload.prompt.substring"))), None)
              end
          end
      end
  end.

(** [handleChatMessage] from the outcome of [fetch] to the registration of
    the stream handlers: the calls made, and whether the handlers are
    registered. *)
Definition chat_response (clientId : N) (ws : socket) (f : fetched)
  : list event * bool :=
  match f with
  | Rejected message => (chat_catch clientId ws message, false)
  | Response status ok has_body =>
      if negb ok || negb has_body then
        ([LogActivity clientId (js "OLLAMA_ERROR")
            (Obj [(js "status", num status)]);
          WsSend ws (connecting_error status)], false)
      else ([], true)
  end.

(** One whole chat: the request, the outcome of [fetch], then the body
    stream with its chunks and its ending. *)
Definition chat (clients : registry) (clientId : N) (data : value)
    (f : fetched) (chunks : list jsstring) (e : ending) : list event :=
  match map_get clientId clients, chat_request clients clientId data with
  | Some client, (calls, Some payload) =>
      let '(calls', streaming) := chat_response clientId (client_ws client) f in
      calls ++ calls'
      ++ (if streaming
          then run clientId (client_ws client)
                 (default Undefined (lookup_member (js "model")
                    match payload with Obj ms => ms | _ => [] end))
                 chunks e
          else [])
  | _, (calls, _) => calls
  end.

(** The catch clause of [ws.on('message')]; [ws] is the socket of the
    connection. *)
Definition message_catch (clientId : N) (ws : socket) (err : error)
  : list event :=
  [LogActivity clientId (js "PARSE_ERROR")
     (Obj [(js "error", Str (errorMessage err))]);
   WsSend ws invalid_format].

(** [ws.on('message', async (msg) => ...)] of the connection of client
    [clientId] with socket [ws], on the text [msg]: the registry after it,
    the calls made, and the payload of the request to Ollama when the
    message leads to one.  [now] is [Date.now()], [nowISO], [stamp] and
    [stamp'] are the clock as [handleBroadcast] and the broadcasts read
    it. *)
Definition on_message (stamp stamp' : N → jsstring) (nowISO : jsstring)
    (now : N) (clients : registry) (clientId : N) (ws : socket)
    (msg : jsstring) : registry * list event * option value :=
  let clients := map_update clientId (set_lastActivity now) clients in
  match JSON.parse msg with
  | None => (clients, message_catch clientId ws (SyntaxError msg), None)
  | Some data =>
      match get data (js "type") with
      | Throws =>
          (clients, message_catch clientId ws (TypeError (js "data.type")),
           None)
      | Returns type =>
          match prompt_preview
                  (match get data (js "prompt") with
                   | Returns prompt => prompt
                   | Throws => Undefined
                   end) with
          | Throws =>
              (clients,
               message_catch clientId ws
                 (TypeError (js "data.prompt?.substring")), None)
          | Returns preview =>
              let received :=
                LogActivity clientId (js "MESSAGE_RECEIVED")
                  (Obj [(js "type", or_value type (Str (js "chat")));
                        (js "prompt", Str preview)]) in
              match type with
              | Str t =>
                  if jsstring_eqb t (js "set_name") then
                    let '(clients, calls) :=
                      handleSetName readyState toISOString ToString
                        stamp stamp' clients clientId
                        (match get data (js "name") with
                         | Returns n => n
                         | Throws => Undefined
                         end) in
                    (clients, received :: calls, None)
                  else if jsstring_eqb t (js "get_clients") then
                    (clients, received :: handleGetClients clients clientId,
                     None)
                  else if jsstring_eqb t (js "broadcast") then
                    match handleBroadcast readyState nowISO stamp clients
                            clientId
                            (match get data (js "message") with
                             | Returns m => m
                             | Throws => Undefined
                             end) with
                    | Returns calls => (clients, received :: calls, None)
                    | Throws =>
                        (clients,
                         received
                         :: message_catch clientId ws
                              (TypeError (js "message.substring")), None)
                    end
                  else
                    let '(calls, request) :=
                      chat_request clients clientId data in
                    (clients, received :: calls, request)
              | _ =>
                  let '(calls, request) :=
                    chat_request clients clientId data in
                  (clients, received :: calls, request)
              end
          end
      end
  end.

(** [ws.on('close', ...)] of the connection of client [clientId];
    [clientInfo] is the record of the connection, the object the registry
    holds under [clientId] while the client is registered. *)
Definition on_close (stamp stamp' : N → jsstring) (clients : registry)
    (clientId : N) (clientInfo : clientInfo) : registry * list event :=
  let clients := map_delete clientId clients in
  (clients,
   [LogActivity clientId (js "DISCONNECTED") (Obj [])]
   ++ broadcast readyState stamp clients
        (Obj [(js "type", Str (js "client_disconnected"));
              (js "clientId", num clientId);
              (js "name", name clientInfo);
              (js "message",
               Str (ToString (name clientInfo) ++ js " disconnected"))])
        None
   ++ sendClientList readyState toISOString stamp' clients).

(** One event of the server: a connection, a message on the connection of
    a registered client, or the close of one. *)
Inductive step : server → server → Prop :=
| step_connection stamp s ws now now' ip userAgent :
    step s (snd (fst (on_connection stamp s ws now now' ip userAgent)))
| step_message stamp stamp' nowISO now s clientId client msg :
    map_get clientId (clients s) = Some client →
    step s (mkServer (clientIdCounter s)
              (fst (fst (on_message stamp stamp' nowISO now (clients s)
                           clientId (client_ws client) msg))))
| step_close stamp stamp' s clientId client :
    map_get clientId (clients s) = Some client →
    step s (mkServer (clientIdCounter s)
              (fst (on_close stamp stamp' (clients s) clientId client))).

(** The servers a run reaches from the start, [clientIdCounter = 0] and an
    empty registry. *)
Inductive reachable : server → Prop :=
| reachable_start : reachable (mkServer 0 [])
| reachable_step s s' : reachable s → step s s' → reachable s'.

End Connection.

(** The ids of the registry, in its order. *)
Definition ids (clients : registry) : list N := fst <$> clients.

(** The ids of the registry go up along it, and lie between 1 and the
    counter. *)
Definition well_formed (s : server) : Prop :=
  StronglySorted N.lt (ids (clients s)) ∧
  Forall (λ id, 0 < id ∧ id ≤ clientIdCounter s) (ids (clients s)).

(** The entry of a list of clients is marked as the requester's. *)
Definition is_you (entry : value) : bool :=
  match get entry (js "isYou") with
  | Returns (Bool b) => b
  | _ => false
  end.

(** The frames among the calls that go to socket [ws]. *)
Definition frames_to (ws : socket) (calls : list event) : list value :=
  omap (λ e, match e with
             | WsSend w f => if w =? ws then Some f else None
             | _ => None
             end) calls.

(** A frame is a [stream] frame: its [type] is the string [stream]. *)
Definition is_stream (frame : value) : bool :=
  match get frame (js "type") with
  | Returns (Str t) => jsstring_eqb t (js "stream")
  | _ => false
  end.

(** The number of [stream] frames among the calls. *)
Definition stream_count (calls : list event) : N :=
  N.of_nat (length (List.filter (λ p, is_stream (snd p)) (frames calls))).

(** Every [stream_end] frame with [stats] among the calls reports the
    count [tokens] plus the number of [stream] frames before it. *)
Definition reports (ws : socket) (model : value) (tokens : N)
    (calls : list event) : Prop :=
  ∀ pre t post,
    calls = pre ++ WsSend ws (stream_end_stats model t) :: post →
    t = tokens + stream_count pre.

End Activity.

(** ** server.js: the message handler

    [ws.on('message')] before the stream handlers are registered.  The
    file is a module, so its code is strict.  The text [console.log] is
    handed for the payload is recorded as the payload object it is the
    [JSON.stringify] of; the text itself, in which a number shows as the
    double it stands for, is not modelled. *)

Module ServerMessage.
Import JS.

Inductive error :=
| SyntaxError (text : jsstring)     (* JSON.parse(text) *)
| TypeError (expr : jsstring).      (* an assignment that strict code
                                       refuses *)

Inductive call :=
| ConsoleLog (label : jsstring) (arg : value)
| ConsoleError (label arg : jsstring)
| WsSend (data : value)
| WsClose.

Inductive fetched :=
| Rejected (message : jsstring)
| Response (status : N) (ok has_body : bool).

Definition INTERNAL_ERROR : value :=
  Str ([10060] ++ js " Internal server error").
Definition CONNECTING_ERROR : value :=
  Str ([10060] ++ js " Error connecting to Ollama (is it running?)").

Fixpoint replace_member (key : jsstring) (v : value)
    (ms : list (jsstring * value)) : list (jsstring * value) :=
  match ms with
  | [] => []
  | (k, w) :: r =>
      (k, if jsstring_eqb k key then v else w) :: replace_member key v r
  end.

(** [object.key = v] on the members of an object: a known key takes the
    value where it stands, a new key goes last. *)
Definition set_member (key : jsstring) (v : value)
    (ms : list (jsstring * value)) : list (jsstring * value) :=
  match lookup_member key ms with
  | Some _ => replace_member key v ms
  | None => ms ++ [(key, v)]
  end.

(** [payload.stream = true], as [JSON.stringify] sees the payload
    afterwards: strict code throws on [null] and on a primitive; an array
    takes the property, which [JSON.stringify] leaves out. *)
Definition set_stream (payload : value) : outcome value :=
  match payload with
  | Obj ms => Returns (Obj (set_member (js "stream") (Bool true) ms))
  | Arr items => Returns (Arr items)
  | _ => Throws
  end.

Section Request.

(** [process.env.OLLAMA_URL || "http://localhost:11434/api/generate"], and
    the text of the message of an error. *)
Variables (OLLAMA_URL : jsstring) (errorMessage : error → jsstring).

(** The catch clause. *)
Definition failed (message : jsstring) : list call :=
  [ConsoleError ([10060] ++ js " Server error:") message;
   WsSend INTERNAL_ERROR; WsClose].

(** The handler on the text [msg], up to [await fetch(...)]: the calls
    made, and the payload object handed to [JSON.stringify] for the body of
    the request, when the request is made. *)
Definition on_message (msg : jsstring) : list call * option value :=
  match JSON.parse msg with
  | None => (failed (errorMessage (SyntaxError msg)), None)
  | Some payload =>
      match set_stream payload with
      | Throws => (failed (errorMessage (TypeError (js "payload.stream"))), None)
      | Returns payload =>
          ([ConsoleLog ([55357; 56548] ++ js " Sending to Ollama:")
              (Str OLLAMA_URL);
            ConsoleLog ([55357; 56541] ++ js " Payload:") payload],
           Some payload)
      end
  end.

(** The handler from the outcome of [fetch] to the registration of the
    stream handlers: the calls made, and whether the handlers are
    registered. *)
Definition on_response (f : fetched) : list call * bool :=
  match f with
  | Rejected message => (failed message, false)
  | Response status ok has_body =>
      ([ConsoleLog ([55357; 56549] ++ js " Response status:")
          (Num false status 0);
        ConsoleLog ([55357; 56549] ++ js " Response ok:") (Bool ok)]
       ++ (if negb ok || negb has_body
           then [WsSend CONNECTING_ERROR; WsClose] else []),
       negb (negb ok || negb has_body))
  end.

(** The calls of the handler on [msg] when [fetch] gives [f], up to the
    registration of the stream handlers, and whether they are registered. *)
Definition handle (msg : jsstring) (f : fetched) : list call * bool :=
  match on_message msg with
  | (calls, Some _) =>
      let '(calls', streaming) := on_response f in (calls ++ calls', streaming)
  | (calls, None) => (calls, false)
  end.

End Request.

(** The calls on the socket. *)
Definition ws_calls (calls : list call) : list call :=
  List.filter (λ c, match c with WsSend _ | WsClose => true | _ => false end)
              calls.

End ServerMessage.

(** ** The Records of a text

    The reassembler and the sink in the words of the specification (its
    sections 4.1 and 6), to compare the handlers with: the Records of a
    text, and what the sink is handed for each. *)

Module Spec.
Import JS.

(** The Record of a segment: none for a segment that is empty or all white
    space, and none for one that does not decode. *)
Definition record (segment : jsstring) : option value :=
  if nonempty (trim segment) then JSON.parse segment else None.

(** The Records of a text: those of its segments but the last, in the order
    of the split at line feeds. *)
Definition records (text : jsstring) : list value :=
  omap record (lines text).

(** A field of a Record; [undefined] for a Record that has none. *)
Definition field (r : value) (key : jsstring) : value :=
  match get r key with
  | Returns v => v
  | Throws => Undefined
  end.

Definition content (r : value) : value := field r (js "response").
Definition terminal (r : value) : bool := truthy (field r (js "done")).

(** What the sink is handed: a content to forward, or the terminal
    marker. *)
Inductive item :=
| Content (c : value)
| Terminal.

(** The sink on one Record: its [response], if it has one, then the marker,
    if its [done] is true. *)
Definition sink (r : value) : list item :=
  (if truthy (content r) then [Content (content r)] else [])
  ++ (if terminal r then [Terminal] else []).

(** The Records up to and including the first terminal one. *)
Fixpoint until_terminal (rs : list value) : list value :=
  match rs with
  | [] => []
  | r :: rest => r :: if terminal r then [] else until_terminal rest
  end.

(** The [response] of the Record is a string, if it has one. *)
Definition text_content (r : value) : Prop :=
  truthy (content r) = true → ∃ s, content r = Str s.

(** An item as server.js hands it to the socket. *)
Definition server_calls (i : item) : list Server.event :=
  match i with
  | Content c => [Server.WsSend c]
  | Terminal => [Server.WsSend Server.COMPLETE; Server.WsClose]
  end.

(** The item a frame of server-activity.js carries: the content of a
    [stream] frame, the marker for a [stream_end] frame. *)
Definition item_of_frame (frame : value) : option item :=
  match get frame (js "type") with
  | Returns (Str t) =>
      if jsstring_eqb t (js "stream")
      then Some (Content (field frame (js "content")))
      else if jsstring_eqb t (js "stream_end") then Some Terminal
      else None
  | _ => None
  end.

Definition activity_items (calls : list Activity.event) : list item :=
  omap (λ e, match e with
             | Activity.WsSend _ frame => item_of_frame frame
             | _ => None
             end) calls.

End Spec.

(** ** Inputs of the examples *)

Module Examples.
Import JS.

Definition line (s : string) : jsstring := js s ++ [LF].

(** A record split in the middle of a key. *)
Definition split_record : list jsstring := [js "{'resp"; line "onse':'x'}"].

(** A malformed line between two well-formed ones. *)
Definition with_garbage : jsstring :=
  line "{'response':'a'}" ++ line " garbage " ++ line "{'response':'b'}".

(** A socket that throws on a boolean and on an object, and takes every
    other value. *)
Definition ws_rejects (data : value) : bool :=
  match data with
  | Bool _ | Obj _ => true
  | _ => false
  end.

(** The terminal record, and the terminal record followed by one more. *)
Definition done_tail : jsstring := js "{'done':true}".
Definition done_then_more : list jsstring :=
  [line "{'done':true}"; line "{'response':'a'}"].

(** A content record with no line feed after it. *)
Definition response_tail : jsstring := js "{'response':'x'}".

(** The last record of a generation: empty content and the marker. *)
Definition empty_response_done : jsstring := js "{'response':'','done':true}".

(** Content and marker in one record, among other keys. *)
Definition response_and_done : jsstring :=
  js "{'model':'m','response':'x','done':true,'context':[1,2]}".

(** Three clients; the socket of the second is closed. *)
Definition three_clients : Activity.registry :=
  [(1, Activity.new_client 1 11 100 100 Undefined Undefined);
   (2, Activity.new_client 2 12 200 200 Undefined Undefined);
   (3, Activity.new_client 3 13 300 300 Undefined Undefined)].
Definition ready (ws : Activity.socket) : N := if ws =? 12 then 3 else 1.
Definition at_noon (id : N) : jsstring := js "2025-01-01T12:00:00.000Z".

End Examples.

(** ** Inputs of the further examples *)

Module Scenarios.
Import JS.

(** An environment: the sockets of [Examples.ready], times and errors
    printed as the empty text, and the model [llama2]. *)
Definition no_text {A} (_ : A) : jsstring := [].
Definition llama2 : jsstring := js "llama2".

Definition reachable : Activity.server → Prop :=
  Activity.reachable Examples.ready no_text no_text no_text no_text llama2.

(** The server after its first connection. *)
Definition one_client : Activity.server :=
  snd (fst (Activity.on_connection Examples.ready no_text Examples.at_noon
              (Activity.mkServer 0 []) 11 100 100 Undefined Undefined)).

(** Two content records and the terminal record, one a chunk. *)
Definition two_tokens : list jsstring :=
  [Examples.line "{'response':'a'}"; Examples.line "{'response':'b'}";
   Examples.line "{'done':true}"].

(** Messages of a client. *)
Definition set_name_with_number_prompt : jsstring :=
  js "{'type':'set_name','name':'x','prompt':5}".
Definition broadcast_without_message : jsstring := js "{'type':'broadcast'}".
Definition chat_hello : jsstring := js "{'type':'chat','prompt':'hello'}".
Definition no_type_hello : jsstring := js "{'prompt':'hello','model':'m'}".
Definition generate_hello : jsstring := js "{'model':'m','prompt':'hello','stream':false}".

End Scenarios.

(** * Properties *)

Import JS.

(** An element that differs from every element of an explicit list. *)
Ltac absent :=
  repeat (apply not_elem_of_cons; split; [discriminate|]);
  apply not_elem_of_nil.

(** The case of no fuel is absurd under a lower bound on the fuel. *)
Ltac more_fuel m H :=
  intros [|m] H; [cbn in H; lia|].

(** ** The fuel of the parser *)

Section Fuel.
Import JSON.

Lemma skip_ws_length (s : jsstring) : (length (skip_ws s) ≤ length s)%nat.
Proof.
  induction s as [|c s IH]; cbn; [done|]. destruct (is_ws c); cbn; lia.
Qed.

Lemma string_chars_length (s acc k r : jsstring) :
  string_chars s acc = Some (k, r) → (length r < length s)%nat.
Proof.
  revert acc. induction s as [s IH] using (induction_ltof1 _ (@length _)).
  unfold ltof in IH.
  intros acc. destruct s as [|c s]; [done|]. cbn [string_chars].
  destruct (c =? 34); [intros; simplify_eq/=; lia|].
  destruct (c =? 92).
  - destruct s as [|e s]; [done|]. destruct (e =? 117).
    + destruct s as [|h1 [|h2 [|h3 [|h4 s]]]]; try done.
      destruct (hex4 _ _ _ _); [|done].
      intros H%IH; cbn in *; lia.
    + destruct (escape e); [|done]. intros H%IH; cbn in *; lia.
  - destruct (c <? 32); [done|]. intros H%IH; cbn in *; lia.
Qed.

Lemma digits_length (s : jsstring) acc len n len' r :
  digits s acc len = (n, len', r) →
  (length r + len' = length s + len ∧ length r ≤ length s)%nat.
Proof.
  revert acc len. induction s as [|c s IH]; intros acc len; cbn.
  - intros; simplify_eq. done.
  - destruct (is_digit c).
    + intros H%IH. lia.
    + intros; simplify_eq. done.
Qed.

Lemma int_part_length (s : jsstring) n r :
  int_part s = Some (n, r) → (length r < length s)%nat.
Proof.
  unfold int_part. destruct s as [|c s]; [done|].
  destruct (c =? 48); [intros; simplify_eq/=; lia|].
  destruct (is_digit c) eqn:Hc; [|done]. cbn [digits]. rewrite Hc.
  destruct (digits s _ _) as [[m len] r'] eqn:Hd.
  apply digits_length in Hd. intros; simplify_eq/=. lia.
Qed.

Lemma frac_part_length (m : N) (s : jsstring) m' e r :
  frac_part m s = Some (m', e, r) → (length r ≤ length s)%nat.
Proof.
  unfold frac_part. destruct s as [|c s]; [intros; by simplify_eq|].
  destruct (c =? 46); [|intros; by simplify_eq].
  destruct (digits s _ _) as [[n len] r'] eqn:Hd.
  apply digits_length in Hd. destruct len; [done|].
  intros; simplify_eq/=. lia.
Qed.

Lemma exp_part_length (s : jsstring) e r :
  exp_part s = Some (e, r) → (length r ≤ length s)%nat.
Proof.
  unfold exp_part. destruct s as [|c s]; [intros; by simplify_eq|].
  destruct (_ || _); [|intros; by simplify_eq].
  destruct (match s with [] => _ | _ => _ end) as [sign r1] eqn:Hs.
  assert (length r1 ≤ length s)%nat as Hr1.
  { destruct s as [|d s]; [by simplify_eq|].
    destruct (d =? 45); [simplify_eq/=; lia|].
    destruct (d =? 43); simplify_eq/=; lia. }
  destruct (digits r1 _ _) as [[n len] r'] eqn:Hd.
  apply digits_length in Hd. destruct len; [done|].
  intros; simplify_eq/=. lia.
Qed.

Lemma number_length (s : jsstring) v r :
  number s = Some (v, r) → (length r < length s)%nat.
Proof.
  unfold number.
  destruct (match s with [] => _ | _ => _ end) as [neg s1] eqn:Hs.
  assert (length s1 ≤ length s)%nat as Hs1.
  { destruct s as [|c s]; [by simplify_eq|].
    destruct (c =? 45); simplify_eq/=; lia. }
  destruct (int_part s1) as [[i s2]|] eqn:Hi; [|done].
  destruct (frac_part i s2) as [[[m e1] s3]|] eqn:Hf; [|done].
  destruct (exp_part s3) as [[e2 s4]|] eqn:He; [|done].
  apply int_part_length in Hi. apply frac_part_length in Hf.
  apply exp_part_length in He. intros; simplify_eq. lia.
Qed.

Lemma word_length (w s r : jsstring) :
  word w s = Some r → (length r ≤ length s)%nat.
Proof.
  revert s. induction w as [|a w IH]; intros s; cbn.
  - intros; by simplify_eq.
  - destruct s as [|c s]; [done|]. destruct (c =? a); [|done].
    intros H%IH. cbn. lia.
Qed.

Lemma fuel_enough (n : nat) :
  (∀ s v r, value_ n s = Some (v, r) →
     (length r < length s)%nat ∧
     ∀ m, (2 * length s + 1 ≤ m)%nat → value_ m s = Some (v, r)) ∧
  (∀ s acc v r, elements_ n s acc = Some (v, r) →
     (length r < length s)%nat ∧
     ∀ m, (2 * length s + 2 ≤ m)%nat → elements_ m s acc = Some (v, r)) ∧
  (∀ s acc v r, members_ n s acc = Some (v, r) →
     (length r < length s)%nat ∧
     ∀ m, (2 * length s + 2 ≤ m)%nat → members_ m s acc = Some (v, r)).
Proof.
  induction n as [|n (IHv & IHe & IHm)]; [done|].
  split; [|split].
  - intros s v r. cbn [value_]. destruct s as [|c s]; [done|].
    pose proof (skip_ws_length s) as Hsk.
    destruct (c =? 123) eqn:E1; [|destruct (c =? 91) eqn:E2;
      [|destruct (c =? 34) eqn:E3; [|destruct (c =? 116) eqn:E4;
      [|destruct (c =? 102) eqn:E5; [|destruct (c =? 110) eqn:E6]]]]].
    + destruct (skip_ws s) as [|d r1] eqn:Hs; [done|].
      destruct (d =? 125) eqn:Ed.
      * intros; simplify_eq. cbn in *. split; [lia|]. more_fuel m Hle.
        cbn [value_]. by rewrite E1, Hs, Ed.
      * intros [Hlen Hm]%IHm. cbn in *. split; [lia|]. more_fuel m Hle.
        cbn [value_]. rewrite E1, Hs, Ed. apply Hm. cbn in *. lia.
    + destruct (skip_ws s) as [|d r1] eqn:Hs; [done|].
      destruct (d =? 93) eqn:Ed.
      * intros; simplify_eq. cbn in *. split; [lia|]. more_fuel m Hle.
        cbn [value_]. by rewrite E1, E2, Hs, Ed.
      * intros [Hlen Hm]%IHe. cbn in *. split; [lia|]. more_fuel m Hle.
        cbn [value_]. rewrite E1, E2, Hs, Ed. apply Hm. cbn in *. lia.
    + destruct (string_chars s []) as [[str r1]|] eqn:Hs; [|done].
      apply string_chars_length in Hs as Hlen.
      intros; simplify_eq. cbn. split; [lia|]. more_fuel m Hle.
      cbn [value_]. by rewrite E1, E2, E3, Hs.
    + destruct (word _ s) as [r1|] eqn:Hs; [|done].
      apply word_length in Hs as Hlen.
      intros; simplify_eq. cbn. split; [lia|]. more_fuel m Hle.
      cbn [value_]. by rewrite E1, E2, E3, E4, Hs.
    + destruct (word _ s) as [r1|] eqn:Hs; [|done].
      apply word_length in Hs as Hlen.
      intros; simplify_eq. cbn. split; [lia|]. more_fuel m Hle.
      cbn [value_]. by rewrite E1, E2, E3, E4, E5, Hs.
    + destruct (word _ s) as [r1|] eqn:Hs; [|done].
      apply word_length in Hs as Hlen.
      intros; simplify_eq. cbn. split; [lia|]. more_fuel m Hle.
      cbn [value_]. by rewrite E1, E2, E3, E4, E5, E6, Hs.
    + intros Hn. apply number_length in Hn as Hlen. split; [done|].
      more_fuel m Hle. cbn [value_]. by rewrite E1, E2, E3, E4, E5, E6.
  - intros s acc v r. cbn [elements_].
    destruct (value_ n s) as [[w r0]|] eqn:Hv; [|done].
    apply IHv in Hv as [Hlen Hm].
    pose proof (skip_ws_length r0) as Hsk.
    destruct (skip_ws r0) as [|c r1] eqn:Hs; [done|].
    pose proof (skip_ws_length r1) as Hsk1.
    destruct (c =? 44) eqn:E1; [|destruct (c =? 93) eqn:E2; [|done]].
    + intros [Hlen' Hm']%IHe. cbn in *. split; [lia|]. more_fuel m Hle.
      cbn [elements_]. rewrite Hm by lia. rewrite Hs, E1. apply Hm'. lia.
    + intros; simplify_eq. cbn in *. split; [lia|]. more_fuel m Hle.
      cbn [elements_]. rewrite Hm by lia. by rewrite Hs, E1, E2.
  - intros s acc v r. cbn [members_]. destruct s as [|q s]; [done|].
    destruct (q =? 34) eqn:Eq; [|done].
    destruct (string_chars s []) as [[k r1]|] eqn:Hk; [|done].
    apply string_chars_length in Hk as Hlenk.
    pose proof (skip_ws_length r1) as Hsk1.
    destruct (skip_ws r1) as [|c r2] eqn:Hs1; [done|].
    destruct (c =? 58) eqn:Ec; [|done].
    pose proof (skip_ws_length r2) as Hsk2.
    destruct (value_ n (skip_ws r2)) as [[w r3]|] eqn:Hv; [|done].
    apply IHv in Hv as [Hlen Hm].
    pose proof (skip_ws_length r3) as Hsk3.
    destruct (skip_ws r3) as [|d r4] eqn:Hs3; [done|].
    pose proof (skip_ws_length r4) as Hsk4.
    destruct (d =? 44) eqn:E1; [|destruct (d =? 125) eqn:E2; [|done]].
    + intros [Hlen' Hm']%IHm. cbn in *. split; [lia|]. more_fuel m Hle.
      cbn [members_]. rewrite Eq, Hk, Hs1, Ec. rewrite Hm by lia.
      rewrite Hs3, E1. apply Hm'. lia.
    + intros; simplify_eq. cbn in *. split; [lia|]. more_fuel m Hle.
      cbn [members_]. rewrite Eq, Hk, Hs1, Ec. rewrite Hm by lia.
      by rewrite Hs3, E1, E2.
Qed.

(** The fuel of [parse] is enough: a value read with any fuel is read with
    the fuel [parse] gives. *)
Lemma parse_fuel (text : jsstring) (fuel : nat) v r :
  value_ fuel (skip_ws text) = Some (v, r) →
  value_ (2 * length text + 2) (skip_ws text) = Some (v, r).
Proof.
  intros H. destruct (fuel_enough fuel) as (Hv & _ & _).
  apply Hv in H as [_ Hm]. apply Hm.
  pose proof (skip_ws_length text). lia.
Qed.

End Fuel.

(** ** Splitting into lines *)

Section Splitting.

Lemma pop_snoc {A} (l : list A) (x : A) : pop (l ++ [x]) = (Some x, l).
Proof.
  induction l as [|y l IH]; [done|].
  change ((y :: l) ++ [x]) with (y :: (l ++ [x])).
  cbn [pop]. rewrite IH. by destruct l.
Qed.

(** The split of a text: its lines, then its last segment. *)
Lemma split_snoc (sep : char) (s : jsstring) :
  ∃ ls t, split sep s = ls ++ [t] ∧ sep ∉ t.
Proof.
  induction s as [|c s (ls & t & IH & Ht)].
  - exists [], []. split; [done | apply not_elem_of_nil].
  - cbn [split]. destruct (N.eqb_spec c sep) as [->|Hc].
    + exists ([] :: ls), t. by rewrite IH.
    + rewrite IH. destruct ls as [|l ls]; cbn.
      * exists [], (c :: t). split; [done|]. rewrite not_elem_of_cons. done.
      * exists ((c :: l) :: ls), t. done.
Qed.

Lemma split_free (sep : char) (t : jsstring) : sep ∉ t → split sep t = [t].
Proof.
  induction t as [|c t IH]; [done|].
  rewrite not_elem_of_cons. intros [Hc Ht]. cbn [split].
  destruct (N.eqb_spec c sep) as [->|_]; [done|]. by rewrite IH.
Qed.

Lemma split_nonempty (sep : char) (s : jsstring) : split sep s ≠ [].
Proof.
  destruct (split_snoc sep s) as (ls & t & -> & _). by destruct ls.
Qed.

Lemma split_app (sep : char) (a b : jsstring) ls t h tl :
  split sep a = ls ++ [t] → split sep b = h :: tl →
  split sep (a ++ b) = ls ++ (t ++ h) :: tl.
Proof.
  intros Ha Hb. revert ls t Ha.
  induction a as [|c a IH]; intros ls t Ha.
  - destruct ls as [|? [|? ?]]; simplify_eq/=. done.
  - cbn [split app] in *. destruct (c =? sep).
    + destruct ls as [|l ls]; simplify_eq/=.
      { by destruct (split_nonempty sep a). }
      by rewrite (IH ls t).
    + destruct (split_snoc sep a) as (la & ta & Hsa & _).
      rewrite (IH la ta Hsa). rewrite Hsa in Ha.
      destruct la as [|l la]; cbn in *.
      * by destruct ls as [|? [|? ?]]; simplify_eq/=.
      * destruct ls as [|l' ls]; simplify_eq/=.
        { by destruct la. }
        match goal with H : _ ++ [_] = _ ++ [_] |- _ =>
          apply app_inj_tail in H as [-> ->] end.
        done.
Qed.

(** [lines] and [kept] are the split without and at its last segment,
    which holds no line feed. *)
Lemma lines_kept (s : jsstring) :
  split LF s = lines s ++ [kept s] ∧ LF ∉ kept s.
Proof.
  unfold lines, kept.
  destruct (split_snoc LF s) as (ls & t & -> & Ht).
  rewrite pop_snoc. cbn. by destruct t.
Qed.

Lemma lines_kept_unique (s : jsstring) ls t :
  split LF s = ls ++ [t] → lines s = ls ∧ kept s = t.
Proof.
  destruct (lines_kept s) as [-> _].
  by intros [-> ->]%app_inj_tail.
Qed.

Lemma lines_kept_free (t : jsstring) : LF ∉ t → lines t = [] ∧ kept t = t.
Proof.
  intros Ht. apply lines_kept_unique. by rewrite split_free.
Qed.

(** Splitting a text in two pieces: the second is split together with
    what was kept of the first. *)
Lemma lines_kept_app (a b : jsstring) :
  lines (a ++ b) = lines a ++ lines (kept a ++ b) ∧
  kept (a ++ b) = kept (kept a ++ b).
Proof.
  destruct (lines_kept a) as [Ha Hfree].
  destruct (split_snoc LF b) as (lb & tb & Hb & _).
  assert (∃ h tl, split LF b = h :: tl) as (h & tl & Hb').
  { rewrite Hb. destruct lb; cbn; eauto. }
  pose proof (split_app LF a b _ _ _ _ Ha Hb') as Hab.
  pose proof (split_app LF (kept a) b [] (kept a) _ _
                (split_free _ _ Hfree) Hb') as Hkb.
  cbn [app] in Hkb.
  destruct (lines_kept (kept a ++ b)) as [Hk _].
  rewrite Hk in Hkb. rewrite <- Hkb, app_assoc in Hab.
  apply lines_kept_unique in Hab as [-> ->]. done.
Qed.

End Splitting.

(** ** Blank lines *)

Section Blank.

Lemma trim_start_nil (s : jsstring) : trim_start s = [] ↔ blank s.
Proof.
  unfold blank. induction s as [|c s IH]; cbn.
  - split; [constructor | done].
  - destruct (is_white c) eqn:Hc.
    + rewrite IH. split; [by constructor | by inversion 1].
    + split; [done | inversion 1; congruence].
Qed.

Lemma trim_start_head (s : jsstring) c r :
  trim_start s = c :: r → is_white c = false.
Proof.
  induction s as [|d s IH]; cbn; [done|].
  destruct (is_white d) eqn:Hd; [done | congruence].
Qed.

(** [!line.trim()] holds of the blank lines, and of them only. *)
Lemma trim_blank (s : jsstring) : nonempty (trim s) = false ↔ blank s.
Proof.
  rewrite <- trim_start_nil. unfold trim.
  destruct (trim_start s) as [|c r] eqn:Hs; [done|].
  split; [|done]. intros Hne.
  assert (trim_start (rev (c :: r)) = []) as Hr.
  { destruct (trim_start (rev (c :: r))) as [|x l] eqn:E; [done|].
    apply (f_equal (@length _)) in E as E'.
    destruct (rev (x :: l)) eqn:E2; [|done].
    apply (f_equal (@length _)) in E2. rewrite length_rev in E2. done. }
  apply trim_start_nil in Hr. unfold blank in Hr.
  apply Forall_rev in Hr. rewrite rev_involutive in Hr. apply Forall_inv in Hr.
  apply trim_start_head in Hs. congruence.
Qed.

Lemma trim_not_blank (s : jsstring) : nonempty (trim s) = true ↔ ¬ blank s.
Proof.
  rewrite <- trim_blank. by destruct (nonempty (trim s)).
Qed.

End Blank.

(** ** server.js: the data handler *)

Section ServerData.
Import Server.
Context (send_throws : value → bool).

Local Abbreviation try_line := (try_line send_throws).
Local Abbreviation for_lines := (for_lines send_throws).
Local Abbreviation on_data := (on_data send_throws).
Local Abbreviation feed := (feed send_throws).

Lemma server_on_data_eq (buffer chunk : jsstring) :
  on_data buffer chunk
  = (kept (buffer ++ chunk), for_lines (lines (buffer ++ chunk))).
Proof.
  unfold Server.on_data, kept, lines. by destruct (pop _).
Qed.

(** [ws.close()] is the last call of a line the handler returns on, and
    no call of any other line. *)
Lemma try_line_close (line : jsstring) :
  match try_line line with
  | (calls, true) =>
      ∃ pre, calls = pre ++ [WsSend COMPLETE; WsClose] ∧ WsClose ∉ pre
  | (calls, false) => WsClose ∉ calls
  end.
Proof.
  unfold Server.try_line.
  destruct (JSON.parse line) as [data|]; [|absent].
  destruct (get data (js "response")) as [response|]; [|absent].
  destruct (truthy response && throws send_throws response); [absent|].
  destruct (get data (js "done")) as [done|];
    [destruct (truthy done)|]; destruct (truthy response); try absent.
  - exists [WsSend response]. split; [done | absent].
  - exists []. split; [done | absent].
Qed.

Lemma until_close_free (calls : list event) :
  WsClose ∉ calls → until_close calls = calls.
Proof.
  induction calls as [|e calls IH]; [done|].
  rewrite not_elem_of_cons. intros [He Hc]. cbn.
  destruct e; try done; by rewrite IH.
Qed.

Lemma until_close_app_free (pre calls : list event) :
  WsClose ∉ pre → until_close (pre ++ calls) = pre ++ until_close calls.
Proof.
  induction pre as [|e pre IH]; [done|].
  rewrite not_elem_of_cons. intros [He Hc]. cbn.
  destruct e; try done; by rewrite IH.
Qed.

Lemma until_close_idemp (calls : list event) :
  until_close (until_close calls) = until_close calls.
Proof.
  induction calls as [|e calls IH]; [done|].
  destruct e; cbn; by rewrite ?IH.
Qed.

Lemma until_close_app_r (a b : list event) :
  until_close (a ++ until_close b) = until_close (a ++ b).
Proof.
  induction a as [|e a IH]; cbn; [apply until_close_idemp|].
  destruct e; by rewrite ?IH.
Qed.

(** The calls of the loop stop at its first [ws.close()]. *)
Lemma for_lines_closed (ls : list jsstring) :
  until_close (for_lines ls) = for_lines ls.
Proof.
  induction ls as [|line ls IH]; [done|]. cbn [Server.for_lines].
  destruct (negb _); [done|].
  pose proof (try_line_close line) as H.
  destruct (try_line line) as [calls [|]].
  - destruct H as (pre & -> & Hpre).
    by rewrite until_close_app_free.
  - by rewrite until_close_app_free, IH.
Qed.

Lemma for_lines_app (l1 l2 : list jsstring) :
  for_lines (l1 ++ l2) = until_close (for_lines l1 ++ for_lines l2).
Proof.
  induction l1 as [|line l1 IH]; cbn [Server.for_lines app].
  { by rewrite for_lines_closed. }
  destruct (negb _); [done|].
  pose proof (try_line_close line) as H.
  destruct (try_line line) as [calls [|]].
  - destruct H as (pre & -> & Hpre).
    rewrite <- app_assoc. by rewrite until_close_app_free.
  - by rewrite <- app_assoc, until_close_app_free, IH.
Qed.

Lemma server_feed_cons (buffer chunk : jsstring) more :
  feed buffer (chunk :: more)
  = (fst (feed (kept (buffer ++ chunk)) more),
     for_lines (lines (buffer ++ chunk))
     ++ snd (feed (kept (buffer ++ chunk)) more)).
Proof.
  cbn [Server.feed]. rewrite server_on_data_eq. by destruct (feed _ more).
Qed.

Lemma server_feed_app (chunks more : list jsstring) (buffer : jsstring) :
  feed buffer (chunks ++ more)
  = (fst (feed (fst (feed buffer chunks)) more),
     snd (feed buffer chunks)
     ++ snd (feed (fst (feed buffer chunks)) more)).
Proof.
  revert buffer. induction chunks as [|chunk chunks IH]; intros buffer.
  - cbn. by destruct (feed buffer more).
  - cbn [app]. rewrite !server_feed_cons, IH. cbn [fst snd].
    by rewrite app_assoc.
Qed.

(** After any number of chunks the buffer is what one chunk would leave,
    and the calls up to the first [ws.close()] are those of one chunk. *)
Lemma server_feed_concat (chunks : list jsstring) (buffer : jsstring) :
  LF ∉ buffer →
  fst (feed buffer chunks) = kept (buffer ++ concat chunks) ∧
  until_close (snd (feed buffer chunks))
  = for_lines (lines (buffer ++ concat chunks)).
Proof.
  revert buffer. induction chunks as [|chunk more IH]; intros buffer Hb.
  - cbn. rewrite app_nil_r.
    by destruct (lines_kept_free _ Hb) as [-> ->].
  - rewrite server_feed_cons. cbn [fst snd concat].
    rewrite app_assoc.
    destruct (lines_kept_app (buffer ++ chunk) (concat more)) as [-> ->].
    destruct (IH (kept (buffer ++ chunk))) as [-> IH2].
    { apply lines_kept. }
    split; [done|].
    by rewrite for_lines_app, <- IH2, until_close_app_r.
Qed.

End ServerData.

(** ** server-activity.js: the data handler *)

Section ActivityData.
Import Activity.
Context (clientId : N) (ws : socket) (model : value).

Local Abbreviation for_lines := (for_lines clientId ws model).
Local Abbreviation on_data := (on_data clientId ws model).
Local Abbreviation feed := (feed clientId ws model).

Lemma activity_on_data_eq (st : state) (chunk : jsstring) :
  on_data st chunk
  = (State (kept (buffer st ++ chunk))
           (fst (for_lines (responseTokens st) (lines (buffer st ++ chunk)))),
     snd (for_lines (responseTokens st) (lines (buffer st ++ chunk)))).
Proof.
  unfold Activity.on_data, kept, lines. destruct (pop _) as [popped ls].
  cbn [fst snd]. by destruct (for_lines _ ls).
Qed.

(** The loop over two runs of lines is the loop over the first, then the
    loop over the second from the count the first has reached. *)
Lemma activity_for_lines_app (tokens : N) (l1 l2 : list jsstring) :
  for_lines tokens (l1 ++ l2)
  = (fst (for_lines (fst (for_lines tokens l1)) l2),
     snd (for_lines tokens l1)
     ++ snd (for_lines (fst (for_lines tokens l1)) l2)).
Proof.
  revert tokens. induction l1 as [|line l1 IH]; intros tokens.
  - cbn. by destruct (for_lines tokens l2).
  - cbn [Activity.for_lines app]. destruct (negb _); [apply IH|].
    destruct (try_line clientId ws model tokens line) as [t calls].
    rewrite IH. destruct (for_lines t l1) as [t1 c1]. cbn [fst snd].
    by rewrite app_assoc.
Qed.

Lemma activity_feed_concat (chunks : list jsstring) (st : state) :
  LF ∉ buffer st →
  feed st chunks
  = (State (kept (buffer st ++ concat chunks))
       (fst (for_lines (responseTokens st)
               (lines (buffer st ++ concat chunks)))),
     snd (for_lines (responseTokens st) (lines (buffer st ++ concat chunks)))).
Proof.
  revert st. induction chunks as [|chunk more IH]; intros [b t] Hb.
  - cbn in *. rewrite app_nil_r.
    by destruct (lines_kept_free _ Hb) as [-> ->].
  - cbn [Activity.feed]. rewrite activity_on_data_eq.
    rewrite IH by apply lines_kept.
    cbn [buffer responseTokens concat fst snd]. rewrite (app_assoc b).
    destruct (lines_kept_app (b ++ chunk) (concat more)) as [-> ->].
    by rewrite activity_for_lines_app.
Qed.

End ActivityData.

(** ** Split invariance *)

Section SplitInvariance.
Import Examples.

(** C1, as stated, fails on server.js: a record with [done] ends the
    handler and with it the lines left in the chunk, so that a record after
    it is forwarded when it comes in a chunk of its own and dropped when it
    comes in the same chunk. *)
Lemma split_changes_server_calls :
  Server.feed ws_rejects [] done_then_more
  = ([], [Server.WsSend Server.COMPLETE; Server.WsClose;
          Server.WsSend (Str (js "a"))]) ∧
  Server.feed ws_rejects [] [concat done_then_more]
  = ([], [Server.WsSend Server.COMPLETE; Server.WsClose]) ∧
  Server.feed ws_rejects [] done_then_more
  ≠ Server.feed ws_rejects [] [concat done_then_more].
Proof.
  assert (Server.feed ws_rejects [] done_then_more
          = ([], [Server.WsSend Server.COMPLETE; Server.WsClose;
                  Server.WsSend (Str (js "a"))])) as H1
    by (vm_compute; reflexivity).
  assert (Server.feed ws_rejects [] [concat done_then_more]
          = ([], [Server.WsSend Server.COMPLETE; Server.WsClose])) as H2
    by (vm_compute; reflexivity).
  split; [exact H1|]. split; [exact H2|].
  rewrite H1, H2. discriminate.
Qed.

(** C1, amended.  In server-activity.js, feeding a text in one chunk leaves
    the same state and makes the same calls as feeding it in any number of
    chunks cut at any offsets.  In server.js the buffers agree, and the
    calls of the one chunk are those of the many chunks up to and including
    the first [ws.close()], whatever the socket throws on.  In both, the
    record cut in two is forwarded once, as the whole record is. *)
Theorem split_invariance :
  (∀ clientId ws model chunks,
     Activity.feed clientId ws model Activity.initial chunks
     = Activity.feed clientId ws model Activity.initial [concat chunks]) ∧
  (∀ send_throws chunks,
     fst (Server.feed send_throws [] chunks)
     = fst (Server.feed send_throws [] [concat chunks]) ∧
     Server.until_close (snd (Server.feed send_throws [] chunks))
     = snd (Server.feed send_throws [] [concat chunks])) ∧
  (∀ send_throws,
     Server.feed send_throws [] split_record
     = ([], [Server.WsSend (Str (js "x"))]) ∧
     Server.feed send_throws [] [concat split_record]
     = ([], [Server.WsSend (Str (js "x"))])) ∧
  (∀ clientId ws model,
     Activity.feed clientId ws model Activity.initial split_record
     = (Activity.State [] 1,
        [Activity.WsSend ws (Activity.stream_frame (Str (js "x")))])).
Proof.
  split; [|split; [|split]].
  - intros. rewrite !activity_feed_concat by apply not_elem_of_nil.
    cbn [concat]. by rewrite app_nil_r.
  - intros send_throws chunks.
    destruct (server_feed_concat send_throws chunks []) as [-> ->];
      [apply not_elem_of_nil|].
    rewrite server_feed_cons. cbn [Server.feed fst snd concat].
    by rewrite !app_nil_r.
  - intros. split; vm_compute; reflexivity.
  - intros. vm_compute. reflexivity.
Qed.

End SplitInvariance.

(** ** The buffer between chunks *)

Section BufferInvariant.

Lemma kept_after_line_feed (s : jsstring) : kept (s ++ [LF]) = [].
Proof.
  destruct (lines_kept s) as [Hs _].
  pose proof (split_app LF s [LF] _ _ [] [[]] Hs eq_refl) as H.
  rewrite app_nil_r in H.
  change (lines s ++ [kept s; []]) with (lines s ++ [kept s] ++ [[]]) in H.
  rewrite app_assoc in H.
  by apply lines_kept_unique in H as [_ ->].
Qed.

(** C3.  After a chunk the buffer is the last segment of the split of the
    old buffer followed by the chunk, whatever the text ends with; it holds
    no line feed, so it is no line or one unfinished line; it is empty when
    the text ends with a line feed.  server-activity.js keeps the same
    buffer as server.js. *)
Theorem buffer_invariant (send_throws : value → bool)
    (buffer chunk : jsstring) :
  (∃ ls, split LF (buffer ++ chunk)
         = ls ++ [fst (Server.on_data send_throws buffer chunk)]) ∧
  (LF ∉ fst (Server.on_data send_throws buffer chunk)) ∧
  fst (Server.on_data send_throws buffer (chunk ++ [LF])) = [] ∧
  (∀ clientId ws model tokens,
     Activity.buffer
       (fst (Activity.on_data clientId ws model
               (Activity.State buffer tokens) chunk))
     = fst (Server.on_data send_throws buffer chunk)).
Proof.
  rewrite !server_on_data_eq. cbn [fst].
  destruct (lines_kept (buffer ++ chunk)) as [Hs Hfree].
  split; [by exists (lines (buffer ++ chunk))|].
  split; [done|]. split.
  - by rewrite app_assoc, kept_after_line_feed.
  - intros. by rewrite activity_on_data_eq.
Qed.

End BufferInvariant.

(** ** End of data *)

Section EndOfData.
Import Examples.

(** C2.  The code at a content record left in the buffer with no line feed
    after it, when the data ends: the end handler of either server decodes
    the record and makes no call, where the claim has the record emitted;
    the data handler forwards the same record when a line feed follows
    it. *)
Lemma end_drops_response :
  JSON.parse response_tail = Some (Obj [(js "response", Str (js "x"))]) ∧
  Server.run ws_rejects [response_tail] Server.End = [] ∧
  Server.on_end response_tail = [] ∧
  snd (Server.on_data ws_rejects [] (response_tail ++ [LF]))
  = [Server.WsSend (Str (js "x"))] ∧
  Activity.run 1 7 (Str (js "m")) [response_tail] Activity.End = [] ∧
  Activity.on_end 7 (Activity.State response_tail 0) = [] ∧
  snd (Activity.on_data 1 7 (Str (js "m")) Activity.initial
         (response_tail ++ [LF]))
  = [Activity.WsSend 7 (Activity.stream_frame (Str (js "x")))].
Proof. repeat split; vm_compute; reflexivity. Qed.

End EndOfData.

(** ** Lines that do not decode *)

Section DecodeFailure.
Import Examples.

(** C5.  In the loop of either data handler a blank line is passed over
    with no call at all, and a line that is not blank and does not decode
    is printed to the console and passed over; in both cases the loop goes
    on with the lines that follow.  The chunk with a malformed line between
    two records gives the two records, in order. *)
Theorem decode_failure_is_local (send_throws : value → bool)
    (line : jsstring) (rest : list jsstring) :
  (blank line →
   Server.for_lines send_throws (line :: rest)
   = Server.for_lines send_throws rest) ∧
  (¬ blank line → JSON.parse line = None →
   Server.for_lines send_throws (line :: rest)
   = Server.ConsoleError Server.BAD_JSON line
     :: Server.for_lines send_throws rest) ∧
  (∀ clientId ws model tokens,
     (blank line →
      Activity.for_lines clientId ws model tokens (line :: rest)
      = Activity.for_lines clientId ws model tokens rest) ∧
     (¬ blank line → JSON.parse line = None →
      Activity.for_lines clientId ws model tokens (line :: rest)
      = (fst (Activity.for_lines clientId ws model tokens rest),
         Activity.ConsoleError Activity.BAD_JSON line
         :: snd (Activity.for_lines clientId ws model tokens rest)))) ∧
  Server.on_data send_throws [] with_garbage
  = ([], [Server.WsSend (Str (js "a"));
          Server.ConsoleError Server.BAD_JSON (js " garbage ");
          Server.WsSend (Str (js "b"))]) ∧
  (∀ clientId ws model,
     Activity.on_data clientId ws model Activity.initial with_garbage
     = (Activity.State [] 2,
        [Activity.WsSend ws (Activity.stream_frame (Str (js "a")));
         Activity.ConsoleError Activity.BAD_JSON (js " garbage ");
         Activity.WsSend ws (Activity.stream_frame (Str (js "b")))])).
Proof.
  split; [|split; [|split; [|split]]].
  - intros Hb. apply trim_blank in Hb. cbn [Server.for_lines].
    by rewrite Hb.
  - intros Hb Hp. apply trim_not_blank in Hb. cbn [Server.for_lines].
    unfold Server.try_line. by rewrite Hb, Hp.
  - intros clientId ws model tokens. split.
    + intros Hb. apply trim_blank in Hb. cbn [Activity.for_lines].
      by rewrite Hb.
    + intros Hb Hp. apply trim_not_blank in Hb. cbn [Activity.for_lines].
      unfold Activity.try_line. rewrite Hb, Hp. cbn.
      by destruct (Activity.for_lines _ _ _ tokens rest).
  - vm_compute. reflexivity.
  - intros. vm_compute. reflexivity.
Qed.

(** The theorem at an empty line and at the malformed line of the
    example, before a record. *)
Lemma decode_failure_is_local_witness :
  Server.for_lines ws_rejects [[]; js "{'response':'b'}"]
  = Server.for_lines ws_rejects [js "{'response':'b'}"] ∧
  Server.for_lines ws_rejects [js " garbage "; js "{'response':'b'}"]
  = Server.ConsoleError Server.BAD_JSON (js " garbage ")
    :: Server.for_lines ws_rejects [js "{'response':'b'}"].
Proof.
  split.
  - apply (decode_failure_is_local ws_rejects [] [js "{'response':'b'}"]).
    constructor.
  - apply (decode_failure_is_local ws_rejects (js " garbage ")
             [js "{'response':'b'}"]).
    + intros H. apply trim_blank in H. vm_compute in H. discriminate.
    + vm_compute. reflexivity.
Defined.

End DecodeFailure.

(** ** After the terminal record *)

Section AfterDone.
Import Examples.

(** C4, as stated, fails.  server.js handles the chunk that arrives after
    the terminal record, and calls [ws.send] with its content after
    [ws.close()]; server-activity.js sends the content that follows the
    terminal record in the same chunk. *)
Lemma handled_after_done :
  snd (Server.feed ws_rejects [] done_then_more)
  = [Server.WsSend Server.COMPLETE; Server.WsClose;
     Server.WsSend (Str (js "a"))] ∧
  Activity.frames
    (snd (Activity.on_data 1 7 (Str (js "m")) Activity.initial
            (concat done_then_more)))
  = [(7, Activity.stream_end_stats (Str (js "m")) 0);
     (7, Activity.stream_frame (Str (js "a")))].
Proof. split; vm_compute; reflexivity. Qed.

(** C4, amended.  On a record whose [done] is truthy and whose [response]
    is a string, falsy or absent, server.js sends the completion text after
    the content, closes the socket and returns, so that the lines left in
    the chunk are not decoded; it keeps no mark of this, and a later chunk
    is handled like any other, from the buffer alone.  On a record whose
    [done] is truthy server-activity.js sends the [stream_end] frame and
    goes on with the lines left. *)
Theorem done_policy (send_throws : value → bool) (line : jsstring)
    (data response done : value) (rest : list jsstring) :
  ¬ blank line → JSON.parse line = Some data →
  get data (js "response") = Returns response →
  get data (js "done") = Returns done → truthy done = true →
  ((truthy response = true → ∃ s, response = Str s) →
   Server.for_lines send_throws (line :: rest)
   = (if truthy response then [Server.WsSend response] else [])
     ++ [Server.WsSend Server.COMPLETE; Server.WsClose]) ∧
  (∀ buffer chunks more,
     Server.feed send_throws buffer (chunks ++ more)
     = (fst (Server.feed send_throws
               (fst (Server.feed send_throws buffer chunks)) more),
        snd (Server.feed send_throws buffer chunks)
        ++ snd (Server.feed send_throws
                  (fst (Server.feed send_throws buffer chunks)) more))) ∧
  (∀ clientId ws model tokens,
     ∃ tokens' pre,
       Activity.try_line clientId ws model tokens line
       = (tokens',
          pre ++ [Activity.LogActivity clientId (js "OLLAMA_COMPLETE")
                    (Activity.stats model tokens');
                  Activity.WsSend ws
                    (Activity.stream_end_stats model tokens')]) ∧
       Activity.for_lines clientId ws model tokens (line :: rest)
       = (fst (Activity.for_lines clientId ws model tokens' rest),
          (pre ++ [Activity.LogActivity clientId (js "OLLAMA_COMPLETE")
                     (Activity.stats model tokens');
                   Activity.WsSend ws
                     (Activity.stream_end_stats model tokens')])
          ++ snd (Activity.for_lines clientId ws model tokens' rest))).
Proof.
  intros Hb Hp Hr Hd Ht. apply trim_not_blank in Hb.
  split; [|split].
  - intros Hs. cbn [Server.for_lines]. unfold Server.try_line.
    rewrite Hb, Hp, Hr, Hd, Ht. cbn [negb].
    destruct (truthy response); [|done].
    destruct Hs as [s ->]; done.
  - intros. apply server_feed_app.
  - intros clientId ws model tokens.
    cbn [Activity.for_lines]. unfold Activity.try_line.
    rewrite Hb, Hp, Hr, Hd, Ht. cbn [negb].
    destruct (truthy response); eexists _, _; (split; [reflexivity|]);
      by destruct (Activity.for_lines _ _ _ _ rest).
Qed.

(** The theorem at a record with content and marker, before a content
    record. *)
Lemma done_policy_witness :
  Server.for_lines ws_rejects [response_and_done; js "{'response':'a'}"]
  = [Server.WsSend (Str (js "x"))]
    ++ [Server.WsSend Server.COMPLETE; Server.WsClose].
Proof.
  refine (proj1 (done_policy ws_rejects response_and_done
                   (Obj [(js "model", Str (js "m"));
                         (js "response", Str (js "x"));
                         (js "done", Bool true);
                         (js "context", Arr [Num false 1 0; Num false 2 0])])
                   (Str (js "x")) (Bool true)
                   [js "{'response':'a'}"] _ _ _ _ _) _).
  - intros H. apply trim_blank in H. vm_compute in H. discriminate.
  - vm_compute. reflexivity.
  - vm_compute. reflexivity.
  - vm_compute. reflexivity.
  - reflexivity.
  - intros _. by exists (js "x").
Defined.

End AfterDone.

(** ** The order of the calls *)

Section EmissionOrder.
Import Examples.

Lemma completed_concat (chunks : list jsstring) (buffer : jsstring) :
  LF ∉ buffer →
  concat (completed buffer chunks) = lines (buffer ++ concat chunks).
Proof.
  revert buffer. induction chunks as [|chunk more IH]; intros buffer Hb.
  - cbn. rewrite app_nil_r. by destruct (lines_kept_free _ Hb) as [-> _].
  - cbn [completed concat]. rewrite IH by apply lines_kept.
    rewrite app_assoc.
    by destruct (lines_kept_app (buffer ++ chunk) (concat more)) as [-> _].
Qed.

Lemma server_feed_completed send_throws (chunks : list jsstring)
    (buffer : jsstring) :
  snd (Server.feed send_throws buffer chunks)
  = flat_map (Server.for_lines send_throws) (completed buffer chunks).
Proof.
  revert buffer. induction chunks as [|chunk more IH]; intros buffer.
  - done.
  - rewrite server_feed_cons. cbn [snd completed flat_map]. by rewrite IH.
Qed.

Lemma ws_calls_app (a b : list Server.event) :
  Server.ws_calls (a ++ b) = Server.ws_calls a ++ Server.ws_calls b.
Proof. apply List.filter_app. Qed.

Lemma record_cases (line : jsstring) :
  nonempty (trim line) = false ∧ Spec.record line = None ∨
  nonempty (trim line) = true ∧ Spec.record line = JSON.parse line.
Proof. unfold Spec.record. destruct (nonempty _); auto. Qed.

Lemma field_of_get (r v : value) (key : jsstring) :
  get r key = Returns v → Spec.field r key = v.
Proof. unfold Spec.field. by intros ->. Qed.

Lemma field_of_throw (r : value) (key key' : jsstring) :
  get r key = Throws → Spec.field r key' = Undefined.
Proof. by destruct r. Qed.

(** The calls of the loop body of server.js on a line that decodes to a
    Record with a string for content, if any: those of the sink; the
    handler returns on a terminal Record. *)
Lemma server_try_line_sink send_throws (line : jsstring) (r : value) :
  JSON.parse line = Some r → Spec.text_content r →
  Server.ws_calls (fst (Server.try_line send_throws line))
  = flat_map Spec.server_calls (Spec.sink r) ∧
  snd (Server.try_line send_throws line) = Spec.terminal r.
Proof.
  intros Hp Hs. unfold Server.try_line, Spec.sink, Spec.terminal. rewrite Hp.
  unfold Spec.text_content, Spec.content in *.
  destruct (get r (js "response")) as [response|] eqn:Hr.
  - rewrite (field_of_get _ _ _ Hr) in *.
    assert (truthy response && Server.throws send_throws response = false)
      as ->.
    { destruct (truthy response); [|done]. by destruct Hs as [s ->]. }
    destruct (get r (js "done")) as [done|] eqn:Hd.
    + rewrite (field_of_get _ _ _ Hd).
      destruct (truthy response), (truthy done); done.
    + rewrite (field_of_throw _ _ (js "done") Hd).
      destruct (truthy response); done.
  - rewrite !(field_of_throw _ _ _ Hr). done.
Qed.

Lemma server_for_lines_sink send_throws (ls : list jsstring) :
  Forall Spec.text_content (omap Spec.record ls) →
  Server.ws_calls (Server.for_lines send_throws ls)
  = flat_map Spec.server_calls
      (flat_map Spec.sink (Spec.until_terminal (omap Spec.record ls))).
Proof.
  induction ls as [|line ls IH]; [done|].
  cbn [Server.for_lines omap list_omap].
  destruct (record_cases line) as [[Hb ->]|[Hb ->]]; rewrite Hb; cbn [negb];
    [done|].
  destruct (JSON.parse line) as [r|] eqn:Hp.
  - intros H. apply Forall_cons in H as [Hr Hls].
    destruct (server_try_line_sink send_throws line r Hp Hr) as [Hc Ht].
    destruct (Server.try_line send_throws line) as [calls returned].
    cbn [fst snd] in Hc, Ht. subst returned.
    cbn [Spec.until_terminal flat_map].
    destruct (Spec.terminal r).
    + cbn [flat_map]. by rewrite !app_nil_r.
    + by rewrite ws_calls_app, flat_map_app, Hc, IH.
  - intros Hls. unfold Server.try_line. rewrite Hp. cbn. by apply IH.
Qed.

Lemma until_terminal_sink_close (rs : list value) :
  Server.until_close (flat_map Spec.server_calls (flat_map Spec.sink rs))
  = flat_map Spec.server_calls (flat_map Spec.sink (Spec.until_terminal rs)).
Proof.
  induction rs as [|r rs IH]; [done|].
  cbn [flat_map Spec.until_terminal]. unfold Spec.sink at 1 3.
  destruct (truthy (Spec.content r)), (Spec.terminal r); cbn;
    by rewrite ?IH, ?app_nil_r.
Qed.

Lemma ws_calls_until_close (calls : list Server.event) :
  Server.ws_calls (Server.until_close calls)
  = Server.until_close (Server.ws_calls calls).
Proof.
  unfold Server.ws_calls. induction calls as [|e calls IH]; [done|].
  destruct e; cbn; by rewrite ?IH.
Qed.

(** The frames of the loop body of server-activity.js on a line that
    decodes to a Record carry the items of the sink. *)
Lemma activity_try_line_sink clientId ws model tokens (line : jsstring) :
  Spec.activity_items
    (snd (Activity.try_line clientId ws model tokens line))
  = match JSON.parse line with
    | Some r => Spec.sink r
    | None => []
    end.
Proof.
  unfold Activity.try_line, Spec.sink, Spec.terminal, Spec.content.
  destruct (JSON.parse line) as [r|]; [|done].
  destruct (get r (js "response")) as [response|] eqn:Hr.
  - rewrite (field_of_get _ _ _ Hr).
    destruct (get r (js "done")) as [done|] eqn:Hd.
    + rewrite (field_of_get _ _ _ Hd).
      destruct (truthy response), (truthy done); done.
    + rewrite (field_of_throw _ _ (js "done") Hd).
      destruct (truthy response); done.
  - rewrite !(field_of_throw _ _ _ Hr). done.
Qed.

Lemma activity_for_lines_sink clientId ws model tokens (ls : list jsstring) :
  Spec.activity_items
    (snd (Activity.for_lines clientId ws model tokens ls))
  = flat_map Spec.sink (omap Spec.record ls).
Proof.
  revert tokens. induction ls as [|line ls IH]; intros tokens; [done|].
  cbn [Activity.for_lines omap list_omap].
  destruct (record_cases line) as [[Hb ->]|[Hb ->]]; rewrite Hb; cbn [negb];
    [apply IH|].
  pose proof (activity_try_line_sink clientId ws model tokens line) as H.
  destruct (Activity.try_line clientId ws model tokens line) as [t calls].
  specialize (IH t).
  destruct (Activity.for_lines clientId ws model t ls) as [t' calls'].
  cbn [snd] in *. unfold Spec.activity_items in *. rewrite omap_app, H, IH.
  by destruct (JSON.parse line).
Qed.

(** C6, as stated, fails on server.js: the Record that follows the terminal
    Record in a chunk is a Record of the split and is not emitted, while it
    is emitted when the same text comes in two chunks; what is emitted is
    not a matter of the split of the whole text alone. *)
Lemma record_after_done_not_emitted :
  Spec.records (concat done_then_more)
  = [Obj [(js "done", Bool true)]; Obj [(js "response", Str (js "a"))]] ∧
  Server.ws_calls (snd (Server.feed ws_rejects [] [concat done_then_more]))
  = [Server.WsSend Server.COMPLETE; Server.WsClose] ∧
  Server.ws_calls (snd (Server.feed ws_rejects [] done_then_more))
  = [Server.WsSend Server.COMPLETE; Server.WsClose;
     Server.WsSend (Str (js "a"))].
Proof. repeat split; vm_compute; reflexivity. Qed.

(** C6, amended.  For chunks fed in order, server-activity.js hands the
    sink the Records of the split of the whole text at line feeds, all of
    them and in the order of the split: the content of each with a truthy
    [response], then the marker of each with a truthy [done].  The lines
    the data handlers go over, chunk by chunk, are the lines of that split.
    In server.js, when the [response] of every Record is a string, falsy or
    absent, the calls on the socket are those of the sink on the Records of
    these lines, in their order, less the Records that follow a terminal
    one among the lines of the same chunk; up to and including the first
    [ws.close()] they are those of the Records of the split, none left out,
    up to the first terminal one. *)
Theorem emission_order (chunks : list jsstring) :
  (∀ clientId ws model,
     Spec.activity_items
       (snd (Activity.feed clientId ws model Activity.initial chunks))
     = flat_map Spec.sink (Spec.records (concat chunks))) ∧
  concat (completed [] chunks) = lines (concat chunks) ∧
  (∀ send_throws,
     Forall Spec.text_content (Spec.records (concat chunks)) →
     Server.ws_calls (snd (Server.feed send_throws [] chunks))
     = flat_map Spec.server_calls
         (flat_map Spec.sink
            (flat_map (λ ls, Spec.until_terminal (omap Spec.record ls))
               (completed [] chunks))) ∧
     Server.until_close
       (Server.ws_calls (snd (Server.feed send_throws [] chunks)))
     = flat_map Spec.server_calls
         (flat_map Spec.sink
            (Spec.until_terminal (Spec.records (concat chunks))))).
Proof.
  split; [|split].
  - intros. rewrite activity_feed_concat by apply not_elem_of_nil.
    apply activity_for_lines_sink.
  - apply (completed_concat chunks []), not_elem_of_nil.
  - intros send_throws Hs. split.
    + rewrite server_feed_completed.
      unfold Spec.records in Hs.
      change (concat chunks) with ([] ++ concat chunks) in Hs.
      rewrite <- (completed_concat chunks []) in Hs by apply not_elem_of_nil.
      induction (completed [] chunks) as [|ls groups IH]; [done|].
      cbn [concat] in Hs. rewrite omap_app in Hs.
      apply Forall_app in Hs as [Hls Hgroups].
      cbn [flat_map]. rewrite ws_calls_app, !flat_map_app.
      by rewrite server_for_lines_sink, IH.
    + rewrite <- ws_calls_until_close.
      destruct (server_feed_concat send_throws chunks []) as [_ ->];
        [apply not_elem_of_nil|].
      by apply server_for_lines_sink.
Qed.

(** The theorem at two content records and the terminal record, one a
    chunk. *)
Lemma emission_order_witness :
  Server.ws_calls (snd (Server.feed ws_rejects [] Scenarios.two_tokens))
  = flat_map Spec.server_calls
      (flat_map Spec.sink
         (flat_map (λ ls, Spec.until_terminal (omap Spec.record ls))
            (completed [] Scenarios.two_tokens))) ∧
  Server.ws_calls (snd (Server.feed ws_rejects [] Scenarios.two_tokens))
  = [Server.WsSend (Str (js "a")); Server.WsSend (Str (js "b"));
     Server.WsSend Server.COMPLETE; Server.WsClose].
Proof.
  split; [|vm_compute; reflexivity].
  refine (proj1 (proj2 (proj2 (emission_order Scenarios.two_tokens))
                   ws_rejects _)).
  vm_compute.
  repeat (constructor;
          [intros H; first [discriminate H | eexists; reflexivity]|]).
  constructor.
Defined.

End EmissionOrder.

(** ** The two checks on a record *)

Section ShapeChecks.
Import Examples.

(** C7, as stated, fails: the last record of a generation carries an empty
    [response] string and [done: true]; the terminal calls are made and the
    content is not forwarded, nor counted as a token. *)
Lemma empty_response_not_forwarded :
  JSON.parse empty_response_done
  = Some (Obj [(js "response", Str []); (js "done", Bool true)]) ∧
  Server.try_line ws_rejects empty_response_done
  = ([Server.WsSend Server.COMPLETE; Server.WsClose], true) ∧
  Activity.try_line 1 7 (Str (js "m")) 0 empty_response_done
  = (0, [Activity.LogActivity 1 (js "OLLAMA_COMPLETE")
           (Activity.stats (Str (js "m")) 0);
         Activity.WsSend 7 (Activity.stream_end_stats (Str (js "m")) 0)]).
Proof. repeat split; vm_compute; reflexivity. Qed.

(** C7, amended.  On a decoded record the loop body first checks the
    [response] field and forwards it when it is truthy (a string that is
    not empty), then checks the [done] field and makes the terminal calls
    when it is truthy.  In server-activity.js, and in server.js when the
    [response] is a string, falsy or absent, the calls of each check depend
    on its own field alone, so neither check suppresses the other and no
    other key matters.  A record with a [response] string that is not empty
    and [done: true] has its content forwarded, then the terminal calls
    made. *)
Theorem dual_shape_check (send_throws : value → bool) (line : jsstring)
    (data response done : value) :
  ¬ blank line → JSON.parse line = Some data →
  get data (js "response") = Returns response →
  get data (js "done") = Returns done →
  ((truthy response = true → ∃ s, response = Str s) →
   Server.try_line send_throws line
   = ((if truthy response then [Server.WsSend response] else [])
      ++ (if truthy done then [Server.WsSend Server.COMPLETE; Server.WsClose]
          else []),
      truthy done)) ∧
  (∀ clientId ws model tokens,
     Activity.try_line clientId ws model tokens line
     = (let tokens' := if truthy response then tokens + 1 else tokens in
        (tokens',
         (if truthy response
          then [Activity.WsSend ws (Activity.stream_frame response)] else [])
         ++ (if truthy done
             then [Activity.LogActivity clientId (js "OLLAMA_COMPLETE")
                     (Activity.stats model tokens');
                   Activity.WsSend ws
                     (Activity.stream_end_stats model tokens')]
             else [])))) ∧
  (∀ s, response = Str s → s ≠ [] → done = Bool true →
     Server.for_lines send_throws [line]
     = [Server.WsSend (Str s); Server.WsSend Server.COMPLETE;
        Server.WsClose]).
Proof.
  intros Hb Hp Hr Hd. apply trim_not_blank in Hb.
  split; [|split].
  - intros Hs. unfold Server.try_line. rewrite Hp, Hr, Hd.
    assert (truthy response && Server.throws send_throws response = false)
      as ->.
    { destruct (truthy response); [|done]. by destruct Hs as [s ->]. }
    destruct (truthy done); [done | by rewrite app_nil_r].
  - intros. unfold Activity.try_line. rewrite Hp, Hr, Hd.
    destruct (truthy response), (truthy done); cbn; done.
  - intros s -> Hs ->. cbn [Server.for_lines]. unfold Server.try_line.
    rewrite Hb, Hp, Hr, Hd. by destruct s.
Qed.

(** The theorem at a record with content, marker and two other keys. *)
Lemma dual_shape_check_witness :
  Server.try_line ws_rejects response_and_done
  = ([Server.WsSend (Str (js "x"))]
     ++ [Server.WsSend Server.COMPLETE; Server.WsClose], true) ∧
  Server.for_lines ws_rejects [response_and_done]
  = [Server.WsSend (Str (js "x")); Server.WsSend Server.COMPLETE;
     Server.WsClose].
Proof.
  assert (¬ blank response_and_done) as Hb.
  { intros H. apply trim_blank in H. vm_compute in H. discriminate. }
  pose proof
    (dual_shape_check ws_rejects response_and_done
       (Obj [(js "model", Str (js "m")); (js "response", Str (js "x"));
             (js "done", Bool true);
             (js "context", Arr [Num false 1 0; Num false 2 0])])
       (Str (js "x")) (Bool true) Hb eq_refl eq_refl eq_refl) as H.
  split.
  - apply (proj1 H). intros _. by exists (js "x").
  - apply (proj2 (proj2 H) (js "x")); [reflexivity | discriminate | reflexivity].
Defined.

End ShapeChecks.

(** ** An error of the body stream *)

Section TransportError.
Import Server.
Context (send_throws : value → bool).

Local Abbreviation try_line := (try_line send_throws).
Local Abbreviation for_lines := (for_lines send_throws).
Local Abbreviation feed := (feed send_throws).
Local Abbreviation run := (run send_throws).

Lemma close_after_complete_nil : close_after_complete [].
Proof. intros [|? ?] ? ?; discriminate. Qed.

Lemma close_after_complete_app (a b : list event) :
  close_after_complete a → close_after_complete b →
  close_after_complete (a ++ b).
Proof.
  intros Ha Hb pre post H.
  apply app_eq_inv in H as [(k & -> & Hk)|(k & -> & ->)].
  - destruct k as [|e k]; cbn in Hk.
    + symmetry in Hk. apply (Hb [] post) in Hk as ([|? ?] & ?); done.
    + simplify_eq. by apply (Ha pre k).
  - destruct (Hb k post eq_refl) as (pre' & ->).
    exists (a ++ pre'). by rewrite app_assoc.
Qed.

Lemma close_after_complete_marker :
  close_after_complete [WsSend COMPLETE; WsClose].
Proof.
  intros pre post H. destruct pre as [|? [|? [|? ?]]]; simplify_eq/=.
  by exists [].
Qed.

Lemma close_after_complete_send (v : value) : close_after_complete [WsSend v].
Proof. intros [|? [|? ?]] post H; simplify_eq/=. Qed.

Lemma try_line_marked (line : jsstring) :
  close_after_complete (ws_calls (fst (try_line line))).
Proof.
  unfold Server.try_line.
  destruct (JSON.parse line) as [data|]; [|apply close_after_complete_nil].
  destruct (get data (js "response")) as [response|];
    [|apply close_after_complete_nil].
  destruct (truthy response && throws send_throws response);
    [apply close_after_complete_nil|].
  destruct (get data (js "done")) as [done|];
    [destruct (truthy done)|]; destruct (truthy response); cbn;
    try apply close_after_complete_nil;
    try apply close_after_complete_send;
    try apply close_after_complete_marker.
  apply (close_after_complete_app [_] [_; _]);
    [apply close_after_complete_send | apply close_after_complete_marker].
Qed.

Lemma for_lines_marked (ls : list jsstring) :
  close_after_complete (ws_calls (for_lines ls)).
Proof.
  induction ls as [|line ls IH]; [apply close_after_complete_nil|].
  cbn [Server.for_lines]. destruct (negb _); [done|].
  pose proof (try_line_marked line) as H.
  destruct (try_line line) as [calls [|]]; [done|].
  rewrite ws_calls_app. by apply close_after_complete_app.
Qed.

Lemma server_feed_marked (chunks : list jsstring) (buffer : jsstring) :
  close_after_complete (ws_calls (snd (feed buffer chunks))).
Proof.
  revert buffer. induction chunks as [|chunk more IH]; intros buffer.
  - apply close_after_complete_nil.
  - rewrite server_feed_cons. cbn [snd]. rewrite ws_calls_app.
    apply close_after_complete_app; [apply for_lines_marked | apply IH].
Qed.

Lemma on_end_marked (buffer : jsstring) :
  close_after_complete (ws_calls (on_end buffer)).
Proof.
  unfold on_end. destruct (nonempty _); [|apply close_after_complete_nil].
  destruct (JSON.parse buffer) as [data|]; [|apply close_after_complete_nil].
  destruct (get data (js "done")) as [done|];
    [|apply close_after_complete_nil].
  destruct (truthy done);
    [apply close_after_complete_marker | apply close_after_complete_nil].
Qed.

Lemma server_run_end_marked (chunks : list jsstring) :
  close_after_complete (ws_calls (run chunks End)).
Proof.
  unfold Server.run. pose proof (server_feed_marked chunks []) as H.
  destruct (feed [] chunks) as [buffer calls]. rewrite ws_calls_app.
  apply close_after_complete_app; [done | apply on_end_marked].
Qed.

Lemma server_run_error (chunks : list jsstring) (err : jsstring) :
  run chunks (Error err) = snd (feed [] chunks) ++ on_error err.
Proof. unfold Server.run. by destruct (feed [] chunks). Qed.

Lemma no_error_frame_app (a b : list Activity.event) :
  Activity.no_error_frame a → Activity.no_error_frame b → Activity.no_error_frame (a ++ b).
Proof.
  unfold Activity.no_error_frame, Activity.frames. rewrite omap_app.
  apply Forall_app_2.
Qed.

Lemma activity_try_line_frames clientId ws model tokens line :
  Activity.no_error_frame (snd (Activity.try_line clientId ws model tokens line)).
Proof.
  unfold Activity.try_line, Activity.no_error_frame.
  destruct (JSON.parse line) as [data|]; [|by constructor].
  destruct (get data (js "response")) as [response|]; [|by constructor].
  destruct (truthy response);
    (destruct (get data (js "done")) as [done|]; [destruct (truthy done)|]);
    cbn; repeat constructor; cbn; intros H; vm_compute in H; discriminate.
Qed.

Lemma activity_for_lines_frames clientId ws model tokens ls :
  Activity.no_error_frame (snd (Activity.for_lines clientId ws model tokens ls)).
Proof.
  revert tokens. induction ls as [|line ls IH]; intros tokens.
  { constructor. }
  cbn [Activity.for_lines]. destruct (negb _); [apply IH|].
  pose proof (activity_try_line_frames clientId ws model tokens line) as H.
  destruct (Activity.try_line _ _ _ tokens line) as [t calls].
  specialize (IH t). destruct (Activity.for_lines _ _ _ t ls).
  by apply no_error_frame_app.
Qed.

Lemma activity_feed_frames clientId ws model chunks st :
  Activity.no_error_frame (snd (Activity.feed clientId ws model st chunks)).
Proof.
  revert st. induction chunks as [|chunk more IH]; intros st.
  { constructor. }
  cbn [Activity.feed]. rewrite activity_on_data_eq.
  match goal with |- context [Activity.feed _ _ _ ?s more] =>
    specialize (IH s); destruct (Activity.feed clientId ws model s more) end.
  apply no_error_frame_app; [apply activity_for_lines_frames | done].
Qed.

Lemma activity_on_end_frames ws st :
  Activity.no_error_frame (Activity.on_end ws st).
Proof.
  unfold Activity.on_end, Activity.no_error_frame.
  destruct (nonempty _); [|by constructor].
  destruct (JSON.parse _) as [data|]; [|by constructor].
  destruct (get data (js "done")) as [done|]; [|by constructor].
  destruct (truthy done); repeat constructor.
  cbn. intros H. vm_compute in H. discriminate.
Qed.

(** C8.  When the body stream ends in an error, the calls made for the
    chunks before it stand, and the error handler adds its own after them:
    server.js prints the error, sends the stream error text and closes the
    socket; server-activity.js logs the error and sends the [error] frame.
    What the client receives differs from what it receives from any body
    stream that ends normally: in server.js a normal end never has the
    socket closed right after that text, in server-activity.js it never
    has an [error] frame. *)
Theorem transport_error (chunks : list jsstring) :
  (∀ err,
     run chunks (Error err)
     = snd (feed [] chunks)
       ++ [ConsoleError (js "Stream error:") err; WsSend STREAM_ERROR;
           WsClose]) ∧
  (∀ err chunks',
     ws_calls (run chunks' End) ≠ ws_calls (run chunks (Error err))) ∧
  (∀ clientId ws model message,
     Activity.run clientId ws model chunks (Activity.Error message)
     = snd (Activity.feed clientId ws model Activity.initial chunks)
       ++ [Activity.LogActivity clientId (js "STREAM_ERROR")
             (Obj [(js "error", message)]);
           Activity.WsSend ws Activity.stream_error]) ∧
  (∀ clientId ws model message chunks',
     Activity.frames (Activity.run clientId ws model chunks' Activity.End)
     ≠ Activity.frames
         (Activity.run clientId ws model chunks (Activity.Error message))).
Proof.
  split; [|split; [|split]].
  - intros. apply server_run_error.
  - intros err chunks' Heq.
    rewrite server_run_error, ws_calls_app in Heq. cbn in Heq.
    destruct (server_run_end_marked chunks'
                (ws_calls (snd (feed [] chunks)) ++ [WsSend STREAM_ERROR]) [])
      as (pre' & Hpre).
    { by rewrite Heq, <- app_assoc. }
    apply app_inj_tail in Hpre as [_ Hpre].
    vm_compute in Hpre. discriminate.
  - intros. unfold Activity.run.
    by destruct (Activity.feed _ _ _ Activity.initial chunks).
  - intros clientId ws model message chunks' Heq.
    assert (Activity.no_error_frame (Activity.run clientId ws model chunks' Activity.End))
      as Hclean.
    { unfold Activity.run.
      pose proof (activity_feed_frames clientId ws model chunks'
                    Activity.initial) as H.
      destruct (Activity.feed _ _ _ Activity.initial chunks') as [st calls].
      apply no_error_frame_app; [done | apply activity_on_end_frames]. }
    unfold Activity.no_error_frame in Hclean. rewrite Heq in Hclean.
    unfold Activity.run in Hclean.
    destruct (Activity.feed _ _ _ Activity.initial chunks) as [st calls].
    unfold Activity.frames in Hclean. rewrite omap_app in Hclean.
    apply Forall_app in Hclean as [_ Hclean]. cbn in Hclean.
    apply Forall_inv in Hclean. by apply Hclean.
Qed.

End TransportError.

(** ** The registry of server-activity.js *)

Section Registry.
Import Activity Examples.
Context (readyState : socket → N) (stamp : N → jsstring).

Lemma differs_spec (id : N) (excludeClientId : option N) :
  differs id excludeClientId = true ↔ Some id ≠ excludeClientId.
Proof.
  destruct excludeClientId as [x|]; cbn; [|done].
  rewrite negb_true_iff, N.eqb_neq. split; congruence.
Qed.

(** The calls of [broadcast]: one frame for each entry that passes the
    test of the loop, in the order of the registry. *)
Lemma broadcast_filter (clients : registry) (message : value)
    (excludeClientId : option N) :
  broadcast readyState stamp clients message excludeClientId
  = (λ e, WsSend (client_ws e.2) (broadcast_frame stamp message e.1))
    <$> filter (λ e, Some e.1 ≠ excludeClientId
                     ∧ readyState (client_ws e.2) = 1)
               clients.
Proof.
  unfold broadcast. induction clients as [|[id c] clients IH]; [done|].
  cbn [forEach]. rewrite IH. cbn [filter list_filter fst snd].
  destruct (decide _) as [[Hd Hr]|Hn].
  - apply differs_spec in Hd. apply N.eqb_eq in Hr. by rewrite Hd, Hr.
  - destruct (differs id excludeClientId) eqn:Hd; cbn [andb]; [|done].
    destruct (N.eqb_spec (readyState (client_ws c)) 1) as [Hr|_]; [|done].
    destruct Hn. split; [by apply differs_spec | done].
Qed.

Lemma map_get_update_eq (id : N) f (clients : registry) c :
  map_get id clients = Some c →
  map_get id (map_update id f clients) = Some (f c).
Proof.
  induction clients as [|[k d] clients IH]; [done|]. cbn.
  destruct (k =? id) eqn:Hk; cbn; rewrite Hk; [congruence | done].
Qed.

Lemma map_get_update_ne (id id' : N) f (clients : registry) :
  id' ≠ id → map_get id' (map_update id f clients) = map_get id' clients.
Proof.
  intros Hne. induction clients as [|[k d] clients IH]; [done|]. cbn.
  destruct (N.eqb_spec k id) as [->|Hk]; cbn.
  - by destruct (N.eqb_spec id id').
  - by rewrite IH.
Qed.

Lemma map_update_keys (id : N) f (clients : registry) :
  fst <$> map_update id f clients = fst <$> clients.
Proof.
  induction clients as [|[k d] clients IH]; [done|]. cbn.
  destruct (k =? id); cbn; [done | by rewrite IH].
Qed.

End Registry.

Section RegistryClaims.
Import Activity Examples.

(** C9.  [broadcast(message, excludeClientId)] sends one [broadcast] frame
    with the message to the socket of each registered client whose id is
    not [excludeClientId] and whose socket has [readyState] 1, and makes no
    other call: the excluded client and the clients whose socket is not
    open get no frame.  [handleBroadcast] excludes the sender, which gets
    the [broadcast_sent] frame instead. *)
Theorem broadcast_exclusion (readyState : socket → N) (stamp : N → jsstring)
    (clients : registry) (message : value) (excludeClientId : option N) :
  broadcast readyState stamp clients message excludeClientId
  = (λ e, WsSend (client_ws e.2) (broadcast_frame stamp message e.1))
    <$> filter (λ e, Some e.1 ≠ excludeClientId
                     ∧ readyState (client_ws e.2) = 1)
               clients ∧
  (∀ call,
     call ∈ broadcast readyState stamp clients message excludeClientId ↔
     ∃ id client,
       (id, client) ∈ clients ∧ Some id ≠ excludeClientId ∧
       readyState (client_ws client) = 1 ∧
       call = WsSend (client_ws client) (broadcast_frame stamp message id)) ∧
  (∀ now clientId client text,
     map_get clientId clients = Some client →
     ∃ log sent,
       handleBroadcast readyState now stamp clients clientId (Str text)
       = Returns
           ([LogActivity clientId (js "BROADCAST_SENT") log]
            ++ broadcast readyState stamp clients sent (Some clientId)
            ++ [WsSend (client_ws client)
                  (Obj [(js "type", Str (js "broadcast_sent"));
                        (js "message",
                         Str (js "Message broadcasted to all clients"))])])).
Proof.
  split; [apply broadcast_filter|]. split.
  - intros call. rewrite broadcast_filter, list_elem_of_fmap. split.
    + intros ([id client] & -> & [[Hid Hready] Hin]%list_elem_of_filter).
      by exists id, client.
    + intros (id & client & Hin & Hid & Hready & ->).
      exists (id, client). split; [done|].
      by apply list_elem_of_filter.
  - intros now clientId client text Hget. unfold handleBroadcast.
    rewrite Hget. by eexists _, _.
Qed.

(** The theorem among three clients, the second with a closed socket: a
    broadcast of the first reaches the third alone. *)
Lemma broadcast_exclusion_witness :
  broadcast ready at_noon three_clients (Str (js "hi")) (Some 1)
  = [WsSend 13 (broadcast_frame at_noon (Str (js "hi")) 3)] ∧
  ∃ log sent,
    handleBroadcast ready (at_noon 0) at_noon three_clients 1 (Str (js "hi"))
    = Returns
        ([LogActivity 1 (js "BROADCAST_SENT") log]
         ++ broadcast ready at_noon three_clients sent (Some 1)
         ++ [WsSend 11
               (Obj [(js "type", Str (js "broadcast_sent"));
                     (js "message",
                      Str (js "Message broadcasted to all clients"))])]).
Proof.
  split.
  - rewrite (proj1 (broadcast_exclusion ready at_noon three_clients
                      (Str (js "hi")) (Some 1))).
    vm_compute. reflexivity.
  - apply (proj2 (proj2 (broadcast_exclusion ready at_noon three_clients
                           Undefined None))
             (at_noon 0) 1 (new_client 1 11 100 100 Undefined Undefined)
             (js "hi")).
    reflexivity.
Defined.

(** C10.  [handleSetName] on a registered client leaves in the registry,
    under the client's id, the client's record with a new [name] and the
    same [ws], [connectedAt], [lastActivity], [ip] and [userAgent]; the
    record of every other id, and the ids themselves, are as before.  The
    new name is the one supplied when that is truthy; when it is empty or
    absent it is `Client-<id>`, the name given on connection. *)
Theorem set_name_frame (readyState : socket → N)
    (toISOString : N → jsstring) (ToString : value → jsstring)
    (stamp stamp' : N → jsstring)
    (clients : registry) (clientId : N) (newName : value)
    (client : clientInfo) :
  map_get clientId clients = Some client →
  let clients' :=
    fst (handleSetName readyState toISOString ToString stamp stamp'
           clients clientId newName) in
  map_get clientId clients'
  = Some (ClientInfo (client_ws client)
            (if truthy newName then newName
             else Str (js "Client-" ++ decimal clientId))
            (connectedAt client) (lastActivity client) (ip client)
            (userAgent client)) ∧
  (∀ id, id ≠ clientId → map_get id clients' = map_get id clients) ∧
  fst <$> clients' = fst <$> clients ∧
  (newName = Undefined ∨ newName = Str [] →
   ∀ ws now now' ip userAgent,
     name <$> map_get clientId clients'
     = Some (name (new_client clientId ws now now' ip userAgent))).
Proof.
  intros Hget clients'. subst clients'. unfold handleSetName.
  rewrite Hget. cbn [fst].
  split; [|split; [|split]].
  - by rewrite (map_get_update_eq _ _ _ _ Hget).
  - intros id Hid. by apply map_get_update_ne.
  - apply map_update_keys.
  - intros Hn ws now now' i u. rewrite (map_get_update_eq _ _ _ _ Hget).
    by destruct Hn as [-> | ->].
Qed.

(** The theorem at the second of three clients, with a name and with
    none. *)
Lemma set_name_frame_witness :
  map_get 2 (fst (handleSetName ready (λ _, []) (λ _, []) at_noon at_noon
                    three_clients 2 (Str (js "Dashboard-Monitor"))))
  = Some (ClientInfo 12 (Str (js "Dashboard-Monitor")) 200 200
            Undefined Undefined) ∧
  map_get 2 (fst (handleSetName ready (λ _, []) (λ _, []) at_noon at_noon
                    three_clients 2 Undefined))
  = Some (ClientInfo 12 (Str (js "Client-2")) 200 200 Undefined Undefined).
Proof.
  split.
  - refine (proj1 (set_name_frame ready (λ _, []) (λ _, []) at_noon at_noon
                     three_clients 2 (Str (js "Dashboard-Monitor"))
                     (new_client 2 12 200 200 Undefined Undefined) _)).
    reflexivity.
  - refine (proj1 (set_name_frame ready (λ _, []) (λ _, []) at_noon at_noon
                     three_clients 2 Undefined
                     (new_client 2 12 200 200 Undefined Undefined) _)).
    reflexivity.
Defined.

End RegistryClaims.

(** * Further properties of the handlers *)

(** ** What a data handler does with the text *)

Section TextOfChunks.
Import Examples.

Lemma not_elem_of_app_2 (c : char) (a b : jsstring) :
  c ∉ a → c ∉ b → c ∉ a ++ b.
Proof. rewrite elem_of_app. tauto. Qed.

(** X1.  A chunk with no line feed, the empty chunk among them, makes
    neither data handler call anything: it is appended to the buffer, and
    in server-activity.js the count of tokens stays. *)
Theorem chunk_without_line_feed (send_throws : value → bool)
    (buffer chunk : jsstring) :
  LF ∉ buffer → LF ∉ chunk →
  Server.on_data send_throws buffer chunk = (buffer ++ chunk, []) ∧
  (∀ clientId ws model tokens,
     Activity.on_data clientId ws model (Activity.State buffer tokens) chunk
     = (Activity.State (buffer ++ chunk) tokens, [])).
Proof.
  intros Hb Hc.
  destruct (lines_kept_free (buffer ++ chunk)) as [Hl Hk].
  { by apply not_elem_of_app_2. }
  split.
  - by rewrite server_on_data_eq, Hl, Hk.
  - intros. rewrite activity_on_data_eq. cbn [Activity.buffer].
    by rewrite Hl, Hk.
Qed.

(** The theorem at the first half of a record followed by four more
    letters, and followed by the empty chunk. *)
Lemma chunk_without_line_feed_witness :
  Server.on_data ws_rejects (js "{'resp") (js "onse")
  = (js "{'resp" ++ js "onse", []) ∧
  Server.on_data ws_rejects (js "{'resp") [] = (js "{'resp" ++ [], []).
Proof.
  split.
  - apply (chunk_without_line_feed ws_rejects (js "{'resp") (js "onse"));
      vm_compute; absent.
  - apply (chunk_without_line_feed ws_rejects (js "{'resp") []);
      [vm_compute; absent | apply not_elem_of_nil].
Defined.

Lemma until_close_fixed (calls pre post : list Server.event) :
  Server.until_close calls = calls →
  calls = pre ++ Server.WsClose :: post →
  post = [] ∧ Server.WsClose ∉ pre.
Proof.
  intros Hfix ->. revert Hfix. induction pre as [|e pre IH]; cbn.
  - intros [= <-]. split; [done | apply not_elem_of_nil].
  - destruct e; intros Hfix.
    + injection Hfix as Hfix. destruct (IH Hfix) as [-> Hpre].
      split; [done|]. by apply not_elem_of_cons.
    + injection Hfix as Hfix. by destruct pre.
    + injection Hfix as Hfix. destruct (IH Hfix) as [-> Hpre].
      split; [done|]. by apply not_elem_of_cons.
Qed.

(** X2.  In server.js one data event closes the socket at most once, and
    makes no call after that: [ws.close()] is the last call of the
    handler. *)
Theorem close_is_last_call (send_throws : value → bool)
    (buffer chunk : jsstring) (pre post : list Server.event) :
  snd (Server.on_data send_throws buffer chunk)
  = pre ++ Server.WsClose :: post →
  post = [] ∧ Server.WsClose ∉ pre.
Proof.
  rewrite server_on_data_eq. cbn [snd].
  apply until_close_fixed, for_lines_closed.
Qed.

(** The theorem at the chunk with a record after the terminal record. *)
Lemma close_is_last_call_witness :
  snd (Server.on_data ws_rejects [] (concat done_then_more))
  = [Server.WsSend Server.COMPLETE] ++ Server.WsClose :: [] ∧
  ([] : list Server.event) = [] ∧
  Server.WsClose ∉ [Server.WsSend Server.COMPLETE].
Proof.
  split; [vm_compute; reflexivity|].
  apply (close_is_last_call ws_rejects [] (concat done_then_more)
           [Server.WsSend Server.COMPLETE] []).
  vm_compute. reflexivity.
Defined.

Lemma split_spells (s : jsstring) ls t :
  split LF s = ls ++ [t] → s = flat_map (λ l, l ++ [LF]) ls ++ t.
Proof.
  revert ls t. induction s as [|c s IH]; intros ls t.
  - destruct ls as [|? [|? ?]]; intros; simplify_eq/=. done.
  - cbn [split].
    destruct (split_snoc LF s) as (ls' & t' & Hs & _). rewrite Hs.
    specialize (IH ls' t' Hs).
    destruct (N.eqb_spec c LF) as [->|Hc].
    + destruct ls as [|l ls]; cbn; intros H.
      { injection H as _ H. by destruct ls'. }
      injection H as <- H. apply app_inj_tail in H as [<- <-].
      cbn. by rewrite <- IH.
    + destruct ls' as [|l' ls']; cbn.
      * destruct ls as [|l [|? ?]]; cbn; intros H; try discriminate.
        injection H as <-. by rewrite IH.
      * destruct ls as [|l ls]; cbn; intros H.
        { injection H as _ H. by destruct ls'. }
        injection H as <- H. apply app_inj_tail in H as [<- <-].
        cbn in IH. rewrite IH. cbn. by rewrite <- !app_assoc.
Qed.

(** X3.  Nothing of the text is lost or made up by the buffering.  The
    loops of the data handlers are run, chunk by chunk, on the lines each
    handler has split off; these lines, each with its line feed, followed
    by the buffer left after the last chunk, spell the text of the chunks;
    in both servers.  (The loop of server.js does not reach the lines that
    follow a terminal record among the lines of a chunk.) *)
Theorem text_is_conserved (chunks : list jsstring) :
  (∀ send_throws,
     snd (Server.feed send_throws [] chunks)
     = flat_map (Server.for_lines send_throws) (completed [] chunks) ∧
     concat chunks
     = flat_map (λ l, l ++ [LF]) (concat (completed [] chunks))
       ++ fst (Server.feed send_throws [] chunks)) ∧
  (∀ clientId ws model,
     snd (Activity.feed clientId ws model Activity.initial chunks)
     = snd (Activity.for_lines clientId ws model 0
              (concat (completed [] chunks))) ∧
     concat chunks
     = flat_map (λ l, l ++ [LF]) (concat (completed [] chunks))
       ++ Activity.buffer
            (fst (Activity.feed clientId ws model Activity.initial chunks))).
Proof.
  pose proof (completed_concat chunks [] (not_elem_of_nil _)) as Hc.
  cbn [app] in Hc.
  assert (concat chunks
          = flat_map (λ l, l ++ [LF]) (lines (concat chunks))
            ++ kept (concat chunks)) as H.
  { apply split_spells, lines_kept. }
  rewrite Hc. split.
  - intros send_throws. split.
    + apply server_feed_completed.
    + destruct (server_feed_concat send_throws chunks []) as [-> _];
        [apply not_elem_of_nil | done].
  - intros. by rewrite activity_feed_concat by apply not_elem_of_nil.
Qed.

End TextOfChunks.

(** ** The count of tokens *)

(** The count of [stream] frames among explicit calls, evaluated. *)
Ltac counted :=
  repeat match goal with
  | |- context [Activity.stream_count ?c] =>
      let v := eval vm_compute in (Activity.stream_count c) in
      change (Activity.stream_count c) with v
  end.

Section TokenCount.
Import Activity.
Context (clientId : N) (ws : socket) (model : value).

Local Abbreviation reports := (reports ws model).

Lemma stream_count_app (a b : list event) :
  stream_count (a ++ b) = stream_count a + stream_count b.
Proof.
  unfold stream_count, frames.
  by rewrite omap_app, List.filter_app, length_app, Nat2N.inj_add.
Qed.

Lemma reports_app (tokens : N) (a b : list event) :
  reports tokens a → reports (tokens + stream_count a) b →
  reports tokens (a ++ b).
Proof.
  intros Ha Hb pre t post H.
  apply app_eq_inv in H as [(k & -> & Hk)|(k & -> & ->)].
  - destruct k as [|e k]; cbn in Hk.
    + rewrite app_nil_r in *. symmetry in Hk.
      apply (Hb [] t post) in Hk. change (stream_count []) with 0 in Hk. lia.
    + injection Hk as <- ->. by apply (Ha pre t k).
  - rewrite stream_count_app, N.add_assoc. by apply (Hb k t post).
Qed.

Lemma activity_try_line_count (tokens : N) (line : jsstring) :
  fst (try_line clientId ws model tokens line)
  = tokens + stream_count (snd (try_line clientId ws model tokens line)) ∧
  reports tokens (snd (try_line clientId ws model tokens line)).
Proof.
  unfold try_line, Activity.reports.
  destruct (JSON.parse line) as [data|]; cbn [fst snd].
  2:{ split; [counted; lia|].
      intros [|? [|? ?]] t post H; simplify_eq/=. }
  destruct (get data (js "response")) as [response|]; cbn [fst snd].
  2:{ split; [counted; lia|].
      intros [|? [|? ?]] t post H; simplify_eq/=. }
  destruct (truthy response);
    (destruct (get data (js "done")) as [done|];
     [destruct (truthy done)|]); cbn [fst snd app];
    (split; [counted; lia|]);
    intros [|? [|? [|? [|? ?]]]] t post H; cbn in H; try discriminate;
    injection H as H; subst;
    try (match goal with
         | H : stream_frame _ = stream_end_stats _ _ |- _ =>
             vm_compute in H; discriminate
         end);
    try (match goal with
         | H : stream_end_stats _ _ = stream_end_stats _ _ |- _ =>
             injection H as ->
         end);
    counted; lia.
Qed.

Lemma activity_for_lines_count (tokens : N) (ls : list jsstring) :
  fst (for_lines clientId ws model tokens ls)
  = tokens + stream_count (snd (for_lines clientId ws model tokens ls)) ∧
  reports tokens (snd (for_lines clientId ws model tokens ls)).
Proof.
  revert tokens. induction ls as [|line ls IH]; intros tokens.
  { split; [cbn; counted; lia|]. by intros [|? ?] ? ? ?. }
  cbn [for_lines]. destruct (negb _); [apply IH|].
  destruct (activity_try_line_count tokens line) as [Ht Hr].
  destruct (try_line clientId ws model tokens line) as [t calls].
  cbn [fst snd] in *. destruct (IH t) as [Ht' Hr'].
  destruct (for_lines clientId ws model t ls) as [t' calls'].
  cbn [fst snd] in *. subst t. split.
  - rewrite stream_count_app. lia.
  - by apply reports_app.
Qed.

End TokenCount.

(** X4.  In server-activity.js the count of tokens is the number of
    [stream] frames the client has been sent in the request: after any
    chunks [responseTokens] is the number of [stream] frames among the
    calls, and the [stats] of every [stream_end] frame report the number of
    [stream] frames sent before it. *)
Theorem token_count_is_frame_count (clientId : N) (ws : Activity.socket)
    (model : value) (chunks : list jsstring) :
  Activity.responseTokens
    (fst (Activity.feed clientId ws model Activity.initial chunks))
  = Activity.stream_count
      (snd (Activity.feed clientId ws model Activity.initial chunks)) ∧
  (∀ pre t post,
     snd (Activity.feed clientId ws model Activity.initial chunks)
     = pre ++ Activity.WsSend ws (Activity.stream_end_stats model t) :: post →
     t = Activity.stream_count pre).
Proof.
  rewrite activity_feed_concat by apply not_elem_of_nil.
  cbn [fst snd Activity.responseTokens Activity.initial Activity.buffer].
  destruct (activity_for_lines_count clientId ws model 0
              (lines ([] ++ concat chunks))) as [Ht Hr].
  split; [by rewrite Ht|].
  intros pre t post H. by apply Hr in H.
Qed.

(** The theorem at two content records and the terminal record: the
    [stream_end] frame reports two tokens. *)
Lemma token_count_is_frame_count_witness :
  snd (Activity.feed 1 7 (Str (js "m")) Activity.initial Scenarios.two_tokens)
  = [Activity.WsSend 7 (Activity.stream_frame (Str (js "a")));
     Activity.WsSend 7 (Activity.stream_frame (Str (js "b")));
     Activity.LogActivity 1 (js "OLLAMA_COMPLETE")
       (Activity.stats (Str (js "m")) 2)]
    ++ Activity.WsSend 7 (Activity.stream_end_stats (Str (js "m")) 2) :: [] ∧
  2 = Activity.stream_count
        [Activity.WsSend 7 (Activity.stream_frame (Str (js "a")));
         Activity.WsSend 7 (Activity.stream_frame (Str (js "b")));
         Activity.LogActivity 1 (js "OLLAMA_COMPLETE")
           (Activity.stats (Str (js "m")) 2)].
Proof.
  split; [vm_compute; reflexivity|].
  apply (proj2 (token_count_is_frame_count 1 7 (Str (js "m"))
                  Scenarios.two_tokens) _ 2 []).
  vm_compute. reflexivity.
Defined.

(** ** The registry over the life of the server *)

Section RegistryLife.
Import Activity.

Lemma map_get_None (id : N) (clients : registry) :
  map_get id clients = None ↔ id ∉ ids clients.
Proof.
  unfold ids. induction clients as [|[k c] clients IH]; cbn.
  - split; [intros _; apply not_elem_of_nil | done].
  - rewrite not_elem_of_cons, <- IH.
    destruct (N.eqb_spec k id) as [->|Hk]; [split; [done | tauto]|].
    split; [by split | tauto].
Qed.

Lemma map_get_elem_of (id : N) (clients : registry) c :
  map_get id clients = Some c → (id, c) ∈ clients.
Proof.
  induction clients as [|[k d] clients IH]; cbn; [done|].
  destruct (N.eqb_spec k id) as [->|Hk].
  - intros [= ->]. apply list_elem_of_here.
  - intros H. apply list_elem_of_further. by apply IH.
Qed.

Lemma map_set_fresh (id : N) c (clients : registry) :
  id ∉ ids clients → map_set id c clients = clients ++ [(id, c)].
Proof.
  unfold ids. induction clients as [|[k d] clients IH]; cbn; [done|].
  rewrite not_elem_of_cons. intros [Hk Hrest].
  destruct (N.eqb_spec k id) as [->|_]; [done|]. by rewrite IH.
Qed.

Lemma ids_map_update (id : N) f (clients : registry) :
  ids (map_update id f clients) = ids clients.
Proof. apply map_update_keys. Qed.

Lemma ids_map_delete (id : N) (clients : registry) :
  ids (map_delete id clients) `sublist_of` ids clients.
Proof.
  unfold ids. induction clients as [|[k d] clients IH]; cbn; [done|].
  destruct (k =? id); [by apply sublist_cons_r; left|].
  cbn. by apply sublist_skip.
Qed.

Lemma map_delete_absent (id : N) (clients : registry) :
  NoDup (ids clients) → id ∉ ids (map_delete id clients).
Proof.
  unfold ids. induction clients as [|[k d] clients IH]; cbn.
  - intros _. apply not_elem_of_nil.
  - rewrite NoDup_cons. intros [Hk Hnd].
    destruct (N.eqb_spec k id) as [->|Hne]; [done|].
    cbn. rewrite not_elem_of_cons. split; [done | by apply IH].
Qed.

Lemma map_get_delete_ne (id id' : N) (clients : registry) :
  id' ≠ id → map_get id' (map_delete id clients) = map_get id' clients.
Proof.
  intros Hne. induction clients as [|[k d] clients IH]; cbn; [done|].
  destruct (N.eqb_spec k id) as [->|Hk]; cbn.
  - by destruct (N.eqb_spec id id').
  - by rewrite IH.
Qed.

Lemma StronglySorted_sublist (l k : list N) :
  l `sublist_of` k → StronglySorted N.lt k → StronglySorted N.lt l.
Proof.
  induction 1 as [|x l k Hs IH|x l k Hs IH]; [done|..];
    rewrite ?StronglySorted_cons; intros [Hx Hk].
  - split; [|by apply IH]. rewrite Forall_forall in *.
    intros y Hy. apply Hx. by eapply elem_of_sublist.
  - by apply IH.
Qed.

Lemma StronglySorted_NoDup (l : list N) : StronglySorted N.lt l → NoDup l.
Proof.
  induction l as [|x l IH]; [constructor|].
  rewrite StronglySorted_cons, NoDup_cons. intros [Hx Hl].
  split; [|by apply IH]. rewrite Forall_forall in Hx.
  intros Hin%Hx. lia.
Qed.

Section Env.
Context (readyState : socket → N)
        (toISOString toLocaleString : N → jsstring)
        (ToString : value → jsstring)
        (errorMessage : error → jsstring)
        (OLLAMA_MODEL : jsstring).

Local Abbreviation on_message :=
  (on_message readyState toISOString toLocaleString ToString errorMessage
     OLLAMA_MODEL).
Local Abbreviation step :=
  (step readyState toISOString toLocaleString ToString errorMessage
     OLLAMA_MODEL).
Local Abbreviation reachable :=
  (reachable readyState toISOString toLocaleString ToString errorMessage
     OLLAMA_MODEL).

Lemma handleSetName_ids stamp stamp' clients clientId newName :
  ids (fst (handleSetName readyState toISOString ToString stamp stamp'
              clients clientId newName))
  = ids clients.
Proof.
  unfold handleSetName. destruct (map_get clientId clients); [|done].
  apply ids_map_update.
Qed.

(** The registry after a message: the one with the time of the message
    put down, or the one [handleSetName] makes of it. *)
Lemma on_message_registry stamp stamp' nowISO now clients clientId ws msg :
  let stamped := map_update clientId (set_lastActivity now) clients in
  fst (fst (on_message stamp stamp' nowISO now clients clientId ws msg))
  = stamped ∨
  ∃ data t,
    JSON.parse msg = Some data ∧
    get data (js "type") = Returns (Str t) ∧ t = js "set_name" ∧
    fst (fst (on_message stamp stamp' nowISO now clients clientId ws msg))
    = fst (handleSetName readyState toISOString ToString stamp stamp'
             stamped clientId
             (match get data (js "name") with
              | Returns n => n
              | Throws => Undefined
              end)).
Proof.
  intros stamped. unfold Activity.on_message. fold stamped.
  destruct (JSON.parse msg) as [data|] eqn:Hp; [|by left].
  destruct (get data (js "type")) as [ty|] eqn:Hty; [|by left].
  destruct (prompt_preview _) as [preview|]; [|by left].
  destruct ty as [| |b|? ? ?|t|items|ms];
    try (destruct (chat_request _ _ _ _ _); by left).
  unfold jsstring_eqb.
  destruct (bool_decide_reflect (t = js "set_name")) as [->|_].
  { right. exists data, (js "set_name").
    split; [done|]. split; [done|]. split; [done|].
    by destruct (handleSetName _ _ _ _ _ _ _ _). }
  destruct (bool_decide (t = js "get_clients")); [by left|].
  destruct (bool_decide (t = js "broadcast")).
  - destruct (handleBroadcast _ _ _ _ _ _); by left.
  - destruct (chat_request _ _ _ _ _); by left.
Qed.

(** A message changes no id of the registry. *)
Lemma on_message_ids stamp stamp' nowISO now clients clientId ws msg :
  ids (fst (fst (on_message stamp stamp' nowISO now clients clientId ws msg)))
  = ids clients.
Proof.
  destruct (on_message_registry stamp stamp' nowISO now clients clientId
              ws msg) as [->|(data & t & _ & _ & _ & ->)].
  - apply ids_map_update.
  - by rewrite handleSetName_ids, ids_map_update.
Qed.

Lemma step_well_formed (s s' : server) :
  step s s' → well_formed s → well_formed s'.
Proof.
  unfold well_formed.
  destruct 1 as [stamp s ws now now' i u
                |stamp stamp' nowISO now s clientId client msg Hget
                |stamp stamp' s clientId client Hget];
    intros [Hsorted Hbound]; cbn.
  - rewrite map_set_fresh.
    2:{ rewrite Forall_forall in Hbound. intros Hin%Hbound. lia. }
    unfold ids. rewrite fmap_app. cbn. split.
    + apply StronglySorted_app_2; [|done|repeat constructor].
      intros x y Hx ->%list_elem_of_singleton.
      rewrite Forall_forall in Hbound. apply Hbound in Hx. lia.
    + apply Forall_app. split; [|repeat constructor; lia].
      eapply Forall_impl; [done|]. cbn. lia.
  - by rewrite on_message_ids.
  - split.
    + by eapply StronglySorted_sublist; [apply ids_map_delete|].
    + rewrite Forall_forall in *. intros x Hx. apply Hbound.
      by eapply elem_of_sublist; [|apply ids_map_delete].
Qed.

Lemma reachable_well_formed (s : server) : reachable s → well_formed s.
Proof.
  induction 1 as [|s s' _ IH Hstep].
  - split; constructor.
  - by eapply step_well_formed.
Qed.

End Env.

End RegistryLife.

(** ** Connections and closes *)

Section ConnectionsAndCloses.
Import Activity.

Lemma map_get_snoc (id k : N) c (clients : registry) :
  map_get id (clients ++ [(k, c)])
  = match map_get id clients with
    | Some d => Some d
    | None => if k =? id then Some c else None
    end.
Proof.
  induction clients as [|[k' d] clients IH]; cbn; [done|].
  by destruct (k' =? id).
Qed.

Lemma elem_of_map_delete (id : N) (clients : registry) e :
  e ∈ map_delete id clients → e ∈ clients.
Proof.
  induction clients as [|[k d] clients IH]; cbn; [done|].
  destruct (k =? id); [by apply list_elem_of_further|].
  rewrite !elem_of_cons. intros [->|H]; [by left | right; by apply IH].
Qed.

(** X5.  The ids of the registry of a server a run reaches go up along
    the registry, so no two clients share an id; they lie between 1 and
    the counter, so the id of the next connection is the id of no
    registered client, and no id is given twice. *)
Theorem ids_are_never_reused (readyState : socket → N)
    (toISOString toLocaleString : N → jsstring) (ToString : value → jsstring)
    (errorMessage : error → jsstring) (OLLAMA_MODEL : jsstring)
    (s : server) :
  reachable readyState toISOString toLocaleString ToString errorMessage
    OLLAMA_MODEL s →
  StronglySorted N.lt (ids (clients s)) ∧
  NoDup (ids (clients s)) ∧
  (∀ id, id ∈ ids (clients s) → 0 < id ∧ id ≤ clientIdCounter s) ∧
  (∀ stamp ws now now' ip userAgent,
     fst (fst (on_connection readyState toISOString stamp s ws now now'
                 ip userAgent))
     ∉ ids (clients s)).
Proof.
  intros [Hsorted Hbound]%reachable_well_formed.
  rewrite Forall_forall in Hbound.
  split; [done|]. split; [by apply StronglySorted_NoDup|].
  split; [done|].
  intros stamp ws now now' i u Hin%Hbound. cbn in Hin. lia.
Qed.

(** The theorem at the server after its first connection. *)
Lemma ids_are_never_reused_witness :
  Scenarios.reachable Scenarios.one_client ∧
  NoDup (ids (clients Scenarios.one_client)).
Proof.
  assert (Scenarios.reachable Scenarios.one_client) as H.
  { eapply reachable_step; [apply reachable_start|].
    apply (step_connection Examples.ready Scenarios.no_text Scenarios.no_text
             Scenarios.no_text Scenarios.no_text Scenarios.llama2
             Examples.at_noon (mkServer 0 []) 11 100 100 Undefined Undefined). }
  split; [exact H|].
  exact (proj1 (proj2
    (ids_are_never_reused Examples.ready Scenarios.no_text Scenarios.no_text
       Scenarios.no_text Scenarios.no_text Scenarios.llama2
       Scenarios.one_client H))).
Defined.

(** X6.  A connection to a server a run reaches puts the record of the new
    client last in the registry, under the counter plus one, which becomes
    the counter; the record is found under that id and every other id
    finds what it found; the [welcome] frame, the first frame sent, goes to
    the new socket and reports one client more than there were. *)
Theorem connection_registers (readyState : socket → N)
    (toISOString toLocaleString : N → jsstring) (ToString : value → jsstring)
    (errorMessage : error → jsstring) (OLLAMA_MODEL : jsstring)
    (stamp : N → jsstring) (s : server) (ws : socket) (now now' : N)
    (ip userAgent : value) :
  reachable readyState toISOString toLocaleString ToString errorMessage
    OLLAMA_MODEL s →
  let clientId := clientIdCounter s + 1 in
  let client := new_client clientId ws now now' ip userAgent in
  let result :=
    on_connection readyState toISOString stamp s ws now now' ip userAgent in
  fst (fst result) = clientId ∧
  clientIdCounter (snd (fst result)) = clientId ∧
  clients (snd (fst result)) = clients s ++ [(clientId, client)] ∧
  map_get clientId (clients (snd (fst result))) = Some client ∧
  (∀ id, id ≠ clientId →
     map_get id (clients (snd (fst result))) = map_get id (clients s)) ∧
  ∃ log text rest,
    snd result
    = LogActivity clientId (js "CONNECTED") log
      :: WsSend ws
           (Obj [(js "type", Str (js "welcome"));
                 (js "clientId", num clientId);
                 (js "message", Str text);
                 (js "connectedClients", num (map_size (clients s) + 1))])
      :: rest.
Proof.
  intros [Hsorted Hbound]%reachable_well_formed clientId client result.
  assert (clientId ∉ ids (clients s)) as Hfresh.
  { rewrite Forall_forall in Hbound. intros Hin%Hbound. subst clientId. lia. }
  assert (map_set clientId client (clients s)
          = clients s ++ [(clientId, client)]) as Hset
    by by apply map_set_fresh.
  subst result. unfold on_connection. cbn [fst snd clients clientIdCounter].
  fold clientId. fold client. rewrite Hset.
  split; [done|]. split; [done|]. split; [done|].
  apply map_get_None in Hfresh. split; [|split].
  - by rewrite map_get_snoc, Hfresh, N.eqb_refl.
  - intros id Hid. rewrite map_get_snoc.
    destruct (map_get id (clients s)); [done|].
    by destruct (N.eqb_spec clientId id).
  - eexists _, _, _. cbn [app]. repeat f_equal.
    unfold map_size. rewrite length_app. cbn. lia.
Qed.

(** The theorem at the start of the server. *)
Lemma connection_registers_witness :
  clients Scenarios.one_client
  = [(1, new_client 1 11 100 100 Undefined Undefined)].
Proof.
  refine (proj1 (proj2 (proj2
    (connection_registers Examples.ready Scenarios.no_text Scenarios.no_text
       Scenarios.no_text Scenarios.no_text Scenarios.llama2
       Examples.at_noon (mkServer 0 []) 11 100 100 Undefined Undefined _)))).
  apply reachable_start.
Defined.

(** X7.  The close of the connection of a registered client, in a registry
    with no id twice, takes the client out of the registry and leaves every
    other id with what it had; every frame the handler sends goes to the
    open socket of a client that is still registered, so that none is sent
    to the client that has left. *)
Theorem close_unregisters (readyState : socket → N)
    (toISOString : N → jsstring) (ToString : value → jsstring)
    (stamp stamp' : N → jsstring) (clients : registry) (clientId : N)
    (client : clientInfo) :
  NoDup (ids clients) → map_get clientId clients = Some client →
  let result :=
    on_close readyState toISOString ToString stamp stamp' clients clientId
      client in
  map_get clientId (fst result) = None ∧
  (∀ id, id ≠ clientId → map_get id (fst result) = map_get id clients) ∧
  (∀ w f, WsSend w f ∈ snd result →
     ∃ id c, (id, c) ∈ clients ∧ id ≠ clientId ∧ map_get id (fst result) = Some c
             ∧ w = client_ws c ∧ readyState w = 1).
Proof.
  intros Hnd Hget result. subst result. unfold on_close. cbn [fst snd].
  pose proof (map_delete_absent clientId clients Hnd) as Habsent.
  split; [by apply map_get_None|]. split.
  { intros id Hid. by apply map_get_delete_ne. }
  assert (NoDup (ids (map_delete clientId clients))) as Hnd'.
  { exact (sublist_NoDup _ _ Hnd (ids_map_delete clientId clients)). }
  assert (∀ w f message excl stamp,
            WsSend w f ∈ broadcast readyState stamp
                           (map_delete clientId clients) message excl →
            ∃ id c, (id, c) ∈ clients ∧ id ≠ clientId ∧
                    map_get id (map_delete clientId clients) = Some c ∧
                    w = client_ws c ∧ readyState w = 1) as Hb.
  { intros w f message excl st Hin.
    rewrite broadcast_filter in Hin.
    apply list_elem_of_fmap in Hin as ([id c] & [= -> ->] & Hin).
    apply list_elem_of_filter in Hin as [[_ Hready] Hin]. cbn in *.
    exists id, c. split; [by eapply elem_of_map_delete|]. split.
    { intros ->. apply Habsent. unfold ids.
      by apply (list_elem_of_fmap_2 fst) in Hin. }
    split; [|done].
    clear -Hin Hnd'. induction (map_delete clientId clients) as [|[k d] l IH].
    { by apply elem_of_nil in Hin. }
    cbn in *. apply NoDup_cons in Hnd' as [Hk Hnd'].
    apply elem_of_cons in Hin as [[= -> ->]|Hin]; [by rewrite N.eqb_refl|].
    destruct (N.eqb_spec k id) as [->|_]; [|by apply IH].
    destruct Hk. by apply (list_elem_of_fmap_2 fst) in Hin. }
  intros w f Hin. cbn in Hin.
  apply elem_of_cons in Hin as [Hin|Hin]; [done|].
  apply elem_of_app in Hin as [Hin|Hin]; by eapply Hb.
Qed.

(** The theorem at the second of three clients. *)
Lemma close_unregisters_witness :
  map_get 2 (fst (on_close Examples.ready Scenarios.no_text Scenarios.no_text
                    Examples.at_noon Examples.at_noon Examples.three_clients 2
                    (new_client 2 12 200 200 Undefined Undefined)))
  = None.
Proof.
  refine (proj1 (close_unregisters Examples.ready Scenarios.no_text
                   Scenarios.no_text Examples.at_noon Examples.at_noon
                   Examples.three_clients 2
                   (new_client 2 12 200 200 Undefined Undefined) _ _)).
  - vm_compute. repeat constructor; rewrite ?elem_of_cons, ?elem_of_nil;
      intuition discriminate.
  - reflexivity.
Defined.

End ConnectionsAndCloses.

(** ** Names and lists of clients *)

Section NamesAndLists.
Import Activity.

Lemma map_update_compose (id : N) f g (clients : registry) :
  map_update id g (map_update id f clients) = map_update id (g ∘ f) clients.
Proof.
  induction clients as [|[k d] clients IH]; cbn; [done|].
  destruct (k =? id) eqn:Hk; cbn; rewrite Hk; [done | by rewrite IH].
Qed.

Lemma map_update_ext (id : N) f g (clients : registry) :
  (∀ c, f c = g c) → map_update id f clients = map_update id g clients.
Proof.
  intros Hfg. induction clients as [|[k d] clients IH]; cbn; [done|].
  destruct (k =? id); [by rewrite Hfg | by rewrite IH].
Qed.

Lemma map_update_id (id : N) f (clients : registry) c :
  map_get id clients = Some c → f c = c → map_update id f clients = clients.
Proof.
  intros Hget Hf. induction clients as [|[k d] clients IH]; cbn in *; [done|].
  destruct (k =? id); [|by rewrite IH]. by simplify_eq; rewrite Hf.
Qed.

(** X8.  As to the registry, two calls of [handleSetName] for a client do
    what the second does alone; and a call with the name the client
    has, when that is truthy, changes nothing in the registry. *)
Theorem set_name_composes (readyState : socket → N)
    (toISOString : N → jsstring) (ToString : value → jsstring)
    (stamp1 stamp1' stamp2 stamp2' : N → jsstring)
    (clients : registry) (clientId : N) (first second : value) :
  fst (handleSetName readyState toISOString ToString stamp2 stamp2'
         (fst (handleSetName readyState toISOString ToString stamp1 stamp1'
                 clients clientId first))
         clientId second)
  = fst (handleSetName readyState toISOString ToString stamp2 stamp2'
           clients clientId second) ∧
  (∀ client,
     map_get clientId clients = Some client → truthy (name client) = true →
     fst (handleSetName readyState toISOString ToString stamp1 stamp1'
            clients clientId (name client))
     = clients).
Proof.
  split.
  - unfold handleSetName.
    destruct (map_get clientId clients) as [client|] eqn:Hget; cbn [fst].
    + rewrite (map_get_update_eq _ _ _ _ Hget). cbn [fst].
      rewrite map_update_compose. by apply map_update_ext.
    + by rewrite Hget.
  - intros client Hget Hname. unfold handleSetName. rewrite Hget. cbn [fst].
    apply (map_update_id _ _ _ _ Hget).
    unfold name_or_default. rewrite Hname. by destruct client.
Qed.

(** The theorem at the second of three clients, with its own name. *)
Lemma set_name_composes_witness :
  fst (handleSetName Examples.ready Scenarios.no_text Scenarios.no_text
         Examples.at_noon Examples.at_noon Examples.three_clients 2
         (Str (js "Client-2")))
  = Examples.three_clients.
Proof.
  refine (proj2 (set_name_composes Examples.ready Scenarios.no_text
                   Scenarios.no_text Examples.at_noon Examples.at_noon
                   Examples.at_noon Examples.at_noon Examples.three_clients 2
                   Undefined Undefined)
            (new_client 2 12 200 200 Undefined Undefined) _ _);
    reflexivity.
Defined.

Lemma filter_you_length (toLocaleString : N → jsstring) (clientId : N)
    (clients : registry) :
  length (List.filter is_you
            (map (λ '(id, c),
                    Obj [(js "id", num id);
                         (js "name", name c);
                         (js "connected",
                          Str (toLocaleString (connectedAt c)));
                         (js "lastActivity",
                          Str (toLocaleString (lastActivity c)));
                         (js "isYou", Bool (id =? clientId))])
                 clients))
  = length (List.filter (λ id, id =? clientId) (ids clients)).
Proof.
  induction clients as [|[k c] clients IH]; [done|].
  change (ids ((k, c) :: clients)) with (k :: ids clients).
  cbn [map List.filter].
  change (is_you (Obj _)) with (k =? clientId).
  destruct (k =? clientId); cbn [length]; by rewrite IH.
Qed.

Lemma filter_eqb_length (id : N) (l : list N) :
  NoDup l → id ∈ l → length (List.filter (λ k, k =? id) l) = 1%nat.
Proof.
  induction l as [|k l IH]; [by intros _ ?%elem_of_nil|].
  rewrite NoDup_cons, elem_of_cons. intros [Hk Hnd] Hin. cbn.
  destruct (N.eqb_spec k id) as [->|Hne].
  - cbn. f_equal. clear IH Hin Hnd. induction l as [|x l IH]; [done|].
    apply not_elem_of_cons in Hk as [Hx Hl]. cbn.
    destruct (N.eqb_spec x id) as [->|_]; [done | by apply IH].
  - destruct Hin as [->|Hin]; [done | by apply IH].
Qed.

(** X9.  [handleGetClients] for a registered client, in a registry with no
    id twice, sends one frame, to the socket of the requester, whether that
    is open or not; the list in it has an entry for each registered client,
    and exactly one entry is marked [isYou]. *)
Theorem get_clients_marks_requester (toLocaleString : N → jsstring)
    (clients : registry) (clientId : N) (client : clientInfo) :
  NoDup (ids clients) → map_get clientId clients = Some client →
  ∃ entries,
    handleGetClients toLocaleString clients clientId
    = [WsSend (client_ws client)
         (Obj [(js "type", Str (js "client_list"));
               (js "clients", Arr entries)]);
       LogActivity clientId (js "REQUESTED_CLIENT_LIST") (Obj [])] ∧
    length entries = length clients ∧
    length (List.filter is_you entries) = 1%nat.
Proof.
  intros Hnd Hget. unfold handleGetClients. rewrite Hget.
  eexists. split; [reflexivity|]. split; [apply length_map|].
  rewrite filter_you_length. apply filter_eqb_length; [done|].
  apply map_get_elem_of in Hget. unfold ids.
  by apply (list_elem_of_fmap_2 fst) in Hget.
Qed.

(** The theorem at the second of three clients, whose socket is closed. *)
Lemma get_clients_marks_requester_witness :
  ∃ entries,
    handleGetClients Scenarios.no_text Examples.three_clients 2
    = [WsSend 12
         (Obj [(js "type", Str (js "client_list"));
               (js "clients", Arr entries)]);
       LogActivity 2 (js "REQUESTED_CLIENT_LIST") (Obj [])] ∧
    length entries = 3%nat ∧
    length (List.filter is_you entries) = 1%nat.
Proof.
  refine (get_clients_marks_requester Scenarios.no_text
            Examples.three_clients 2
            (new_client 2 12 200 200 Undefined Undefined) _ _).
  - vm_compute. repeat constructor; rewrite ?elem_of_cons, ?elem_of_nil;
      intuition discriminate.
  - reflexivity.
Defined.

End NamesAndLists.

(** ** Messages *)

Section Messages.
Import Activity.
Context (readyState : socket → N)
        (toISOString toLocaleString : N → jsstring)
        (ToString : value → jsstring)
        (errorMessage : error → jsstring)
        (OLLAMA_MODEL : jsstring).

Local Abbreviation on_message :=
  (on_message readyState toISOString toLocaleString ToString errorMessage
     OLLAMA_MODEL).

(** X10.  Whatever the text of a message of a registered client, the
    handler puts the time of the message down as the [lastActivity] of the
    client, before it decodes the text, and keeps the [ws], [connectedAt],
    [ip] and [userAgent] of the client; the [name] changes at most when the
    text decodes to a [set_name] message; the record of every other id is
    as it was. *)
Theorem message_stamps_activity stamp stamp' nowISO now clients clientId ws
    msg client :
  map_get clientId clients = Some client →
  (∃ n,
     map_get clientId
       (fst (fst (on_message stamp stamp' nowISO now clients clientId ws msg)))
     = Some (ClientInfo (client_ws client) n (connectedAt client) now
               (ip client) (userAgent client)) ∧
     (n = name client ∨
      ∃ data, JSON.parse msg = Some data ∧
              get data (js "type") = Returns (Str (js "set_name")))) ∧
  (∀ id, id ≠ clientId →
     map_get id
       (fst (fst (on_message stamp stamp' nowISO now clients clientId ws msg)))
     = map_get id clients).
Proof.
  intros Hget.
  pose proof (map_get_update_eq clientId (set_lastActivity now) clients
                client Hget) as Hstamped.
  destruct (on_message_registry readyState toISOString toLocaleString
              ToString errorMessage OLLAMA_MODEL stamp stamp' nowISO now
              clients clientId ws msg)
    as [->|(data & t & Hp & Hty & -> & ->)].
  - split.
    + exists (name client). split; [done | by left].
    + intros id Hid. by apply map_get_update_ne.
  - unfold handleSetName. rewrite Hstamped. cbn [fst]. split.
    + eexists. split; [by rewrite (map_get_update_eq _ _ _ _ Hstamped)|].
      right. by exists data.
    + intros id Hid. by rewrite !map_get_update_ne.
Qed.

(** X11.  A message whose text does not decode, or decodes to [null], or
    carries a [prompt] that is neither a string nor absent nor [null], is
    answered by the [Invalid message format] frame and by nothing else,
    whatever its [type]: no name is set, nothing is broadcast and no
    request is made; the time of the message is put down all the same. *)
Theorem invalid_message_is_rejected stamp stamp' nowISO now clients clientId
    ws msg :
  JSON.parse msg = None ∨ JSON.parse msg = Some Null ∨
  (∃ data prompt,
     JSON.parse msg = Some data ∧ get data (js "prompt") = Returns prompt ∧
     prompt_preview prompt = Throws) →
  ∃ err,
    on_message stamp stamp' nowISO now clients clientId ws msg
    = (map_update clientId (set_lastActivity now) clients,
       [LogActivity clientId (js "PARSE_ERROR")
          (Obj [(js "error", Str (errorMessage err))]);
        WsSend ws invalid_format],
       None).
Proof.
  unfold Activity.on_message, message_catch.
  intros [->|[->|(data & prompt & -> & Hprompt & Hpreview)]].
  - by eexists.
  - by eexists.
  - rewrite Hprompt, Hpreview.
    destruct (get data (js "type")); by eexists.
Qed.

(** X13.  A message whose [type] is none of [set_name], [get_clients] and
    [broadcast], absent or not a string as it may be, is handled as a
    chat: after the log of the message the handler does what
    [handleChatMessage] does with it, and changes nothing in the registry
    but the time of the message. *)
Theorem other_types_are_chat stamp stamp' nowISO now clients clientId ws msg
    data ty prompt preview :
  JSON.parse msg = Some data →
  get data (js "type") = Returns ty →
  ty ≠ Str (js "set_name") → ty ≠ Str (js "get_clients") →
  ty ≠ Str (js "broadcast") →
  get data (js "prompt") = Returns prompt →
  prompt_preview prompt = Returns preview →
  on_message stamp stamp' nowISO now clients clientId ws msg
  = (map_update clientId (set_lastActivity now) clients,
     LogActivity clientId (js "MESSAGE_RECEIVED")
       (Obj [(js "type", or_value ty (Str (js "chat")));
             (js "prompt", Str preview)])
     :: fst (chat_request errorMessage OLLAMA_MODEL
               (map_update clientId (set_lastActivity now) clients)
               clientId data),
     snd (chat_request errorMessage OLLAMA_MODEL
            (map_update clientId (set_lastActivity now) clients)
            clientId data)).
Proof.
  intros Hp Hty H1 H2 H3 Hprompt Hpreview.
  unfold Activity.on_message. rewrite Hp, Hty, Hprompt, Hpreview.
  destruct ty as [| |b|? ? ?|t|items|ms];
    try by destruct (chat_request _ _ _ _ _).
  unfold jsstring_eqb.
  rewrite !bool_decide_eq_false_2 by congruence.
  by destruct (chat_request _ _ _ _ _).
Qed.

(** X12.  A [broadcast] message of a registered client whose [message] is
    absent or not a string reaches no other client: [handleBroadcast]
    throws before its first call, and the sender is answered by the
    [Invalid message format] frame. *)
Theorem broadcast_needs_text stamp stamp' nowISO now clients clientId
    ws msg client data prompt preview m :
  map_get clientId clients = Some client →
  JSON.parse msg = Some data →
  get data (js "type") = Returns (Str (js "broadcast")) →
  get data (js "prompt") = Returns prompt →
  prompt_preview prompt = Returns preview →
  get data (js "message") = Returns m →
  (∀ text, m ≠ Str text) →
  ∃ received err,
    on_message stamp stamp' nowISO now clients clientId ws msg
    = (map_update clientId (set_lastActivity now) clients,
       [LogActivity clientId (js "MESSAGE_RECEIVED") received;
        LogActivity clientId (js "PARSE_ERROR")
          (Obj [(js "error", Str (errorMessage err))]);
        WsSend ws invalid_format],
       None).
Proof.
  intros Hget Hp Hty Hprompt Hpreview Hm Hnot.
  unfold Activity.on_message. rewrite Hp, Hty, Hprompt, Hpreview, Hm.
  change (jsstring_eqb (js "broadcast") (js "set_name")) with false.
  change (jsstring_eqb (js "broadcast") (js "get_clients")) with false.
  change (jsstring_eqb (js "broadcast") (js "broadcast")) with true.
  cbn match. unfold handleBroadcast.
  rewrite (map_get_update_eq _ _ _ _ Hget).
  destruct m; try by eexists _, _.
  by destruct (Hnot s).
Qed.

End Messages.

Section MessagesAt.
Import Activity Examples Scenarios.

(** X10 at a chat message of the second of three clients. *)
Lemma message_stamps_activity_witness :
  ∃ n,
    map_get 2
      (fst (fst (on_message ready no_text no_text no_text no_text llama2
                   at_noon at_noon [] 999 three_clients 2 12 chat_hello)))
    = Some (ClientInfo 12 n 200 999 Undefined Undefined) ∧
    (n = Str (js "Client-2") ∨
     ∃ data, JSON.parse chat_hello = Some data ∧
             get data (js "type") = Returns (Str (js "set_name"))).
Proof.
  refine (proj1 (message_stamps_activity ready no_text no_text no_text
                   no_text llama2 at_noon at_noon [] 999 three_clients 2 12
                   chat_hello (new_client 2 12 200 200 Undefined Undefined)
                   _)).
  reflexivity.
Defined.

(** X11 at a [set_name] message with a number as [prompt]: the name is not
    set. *)
Lemma invalid_message_is_rejected_witness :
  ∃ err : error,
    on_message ready no_text no_text no_text no_text llama2 at_noon at_noon
      [] 999 three_clients 2 12 set_name_with_number_prompt
    = (map_update 2 (set_lastActivity 999) three_clients,
       [LogActivity 2 (js "PARSE_ERROR")
          (Obj [(js "error", Str (no_text err))]);
        WsSend 12 invalid_format],
       None).
Proof.
  apply (invalid_message_is_rejected ready no_text no_text no_text no_text
           llama2 at_noon at_noon [] 999 three_clients 2 12
           set_name_with_number_prompt).
  right. right.
  exists (Obj [(js "type", Str (js "set_name")); (js "name", Str (js "x"));
               (js "prompt", Num false 5 0)]), (Num false 5 0).
  split; [vm_compute; reflexivity|]. split; reflexivity.
Defined.

(** X12 at a [broadcast] message with no [message]. *)
Lemma broadcast_needs_text_witness :
  ∃ received (err : error),
    on_message ready no_text no_text no_text no_text llama2 at_noon at_noon
      [] 999 three_clients 1 11 broadcast_without_message
    = (map_update 1 (set_lastActivity 999) three_clients,
       [LogActivity 1 (js "MESSAGE_RECEIVED") received;
        LogActivity 1 (js "PARSE_ERROR")
          (Obj [(js "error", Str (no_text err))]);
        WsSend 11 invalid_format],
       None).
Proof.
  apply (broadcast_needs_text ready no_text no_text no_text no_text
           llama2 at_noon at_noon [] 999 three_clients 1 11
           broadcast_without_message
           (new_client 1 11 100 100 Undefined Undefined)
           (Obj [(js "type", Str (js "broadcast"))]) Undefined
           (js "undefined...") Undefined).
  - reflexivity.
  - vm_compute. reflexivity.
  - reflexivity.
  - reflexivity.
  - reflexivity.
  - reflexivity.
  - discriminate.
Defined.

(** X13 at a message with a [prompt], a [model] and no [type]. *)
Lemma other_types_are_chat_witness :
  snd (on_message ready no_text no_text no_text no_text llama2 at_noon
         at_noon [] 999 three_clients 1 11 no_type_hello)
  = Some (Obj [(js "model", Str (js "m")); (js "prompt", Str (js "hello"));
               (js "stream", Bool true)]).
Proof.
  rewrite (other_types_are_chat ready no_text no_text no_text no_text
             llama2 at_noon at_noon [] 999 three_clients 1 11 no_type_hello
             (Obj [(js "prompt", Str (js "hello")); (js "model", Str (js "m"))])
             Undefined (Str (js "hello")) (js "hello" ++ js "...")).
  - vm_compute. reflexivity.
  - vm_compute. reflexivity.
  - reflexivity.
  - discriminate.
  - discriminate.
  - discriminate.
  - reflexivity.
  - reflexivity.
Defined.

End MessagesAt.

(** ** Requests to Ollama *)

Section Requests.
Import Activity.

(** X14.  [handleChatMessage] for a registered client makes the request
    to Ollama exactly when the [prompt] of the message is a string: the
    payload then has that prompt, the [model] of the message when it is
    truthy and the configured model otherwise, and [stream: true].  With
    any other prompt, an absent one included, no request is made and the
    client is sent the [Internal server error] frame. *)
Theorem only_text_prompts_reach_ollama (errorMessage : error → jsstring)
    (OLLAMA_MODEL : jsstring) (clients : registry) (clientId : N)
    (data : value) (client : clientInfo) (model prompt : value) :
  map_get clientId clients = Some client →
  get data (js "model") = Returns model →
  get data (js "prompt") = Returns prompt →
  (∀ text, prompt = Str text →
     ∃ log,
       chat_request errorMessage OLLAMA_MODEL clients clientId data
       = ([LogActivity clientId (js "OLLAMA_REQUEST") log],
          Some (Obj [(js "model",
                      if truthy model then model else Str OLLAMA_MODEL);
                     (js "prompt", Str text);
                     (js "stream", Bool true)]))) ∧
  ((∀ text, prompt ≠ Str text) →
   ∃ message,
     chat_request errorMessage OLLAMA_MODEL clients clientId data
     = ([LogActivity clientId (js "SERVER_ERROR")
           (Obj [(js "error", Str message)]);
         WsSend (client_ws client) internal_error],
        None)).
Proof.
  intros Hget Hmodel Hprompt. unfold chat_request.
  rewrite Hget, Hmodel, Hprompt. split.
  - intros text ->. by eexists.
  - intros Hnot. destruct prompt; try by eexists.
    by destruct (Hnot s).
Qed.

(** The theorem at a chat of the first of three clients, with a prompt and
    no model. *)
Lemma only_text_prompts_reach_ollama_witness :
  ∃ log,
    chat_request Scenarios.no_text Scenarios.llama2 Examples.three_clients 1
      (Obj [(js "type", Str (js "chat")); (js "prompt", Str (js "hello"))])
    = ([LogActivity 1 (js "OLLAMA_REQUEST") log],
       Some (Obj [(js "model", Str Scenarios.llama2);
                  (js "prompt", Str (js "hello"));
                  (js "stream", Bool true)])).
Proof.
  refine (proj1 (only_text_prompts_reach_ollama Scenarios.no_text
                   Scenarios.llama2 Examples.three_clients 1
                   (Obj [(js "type", Str (js "chat"));
                         (js "prompt", Str (js "hello"))])
                   (new_client 1 11 100 100 Undefined Undefined)
                   Undefined (Str (js "hello")) _ _ _)
            (js "hello") _); reflexivity.
Defined.

(** X15.  A chat of a registered client with a string as prompt: when
    [fetch] gives a response that is [ok] and has a body, the calls after
    the log of the request are those of the stream handlers on the chunks
    of the body, run with the model of the request; when [fetch] gives any
    other response or rejects, the stream handlers are not registered and
    the client is sent one frame, the [error] frame with the status of the
    response or the [Internal server error] frame. *)
Theorem chat_streams_after_ok_response (errorMessage : error → jsstring)
    (OLLAMA_MODEL : jsstring) (clients : registry) (clientId : N)
    (data : value) (client : clientInfo) (model : value) (text : jsstring)
    (chunks : list jsstring) (e : ending) :
  map_get clientId clients = Some client →
  get data (js "model") = Returns model →
  get data (js "prompt") = Returns (Str text) →
  (∀ status,
     ∃ log,
       chat errorMessage OLLAMA_MODEL clients clientId data
         (Response status true true) chunks e
       = LogActivity clientId (js "OLLAMA_REQUEST") log
         :: run clientId (client_ws client)
              (if truthy model then model else Str OLLAMA_MODEL) chunks e) ∧
  (∀ status ok has_body,
     ok && has_body = false →
     frames (chat errorMessage OLLAMA_MODEL clients clientId data
               (Response status ok has_body) chunks e)
     = [(client_ws client, connecting_error status)]) ∧
  (∀ message,
     frames (chat errorMessage OLLAMA_MODEL clients clientId data
               (Rejected message) chunks e)
     = [(client_ws client, internal_error)]).
Proof.
  intros Hget Hmodel Hprompt. unfold chat, chat_request.
  rewrite Hget, Hmodel, Hprompt. split; [|split].
  - intros status. eexists. cbn. reflexivity.
  - intros status ok has_body Hbad. cbn.
    destruct ok, has_body; try discriminate; reflexivity.
  - intros message. reflexivity.
Qed.

(** The theorem at a chat of the first of three clients, answered with
    status 500 and with two tokens. *)
Lemma chat_streams_after_ok_response_witness :
  frames (chat Scenarios.no_text Scenarios.llama2 Examples.three_clients 1
            (Obj [(js "prompt", Str (js "hello"))])
            (Response 500 false true) Scenarios.two_tokens End)
  = [(11, connecting_error 500)].
Proof.
  refine (proj1 (proj2
    (chat_streams_after_ok_response Scenarios.no_text Scenarios.llama2
       Examples.three_clients 1 (Obj [(js "prompt", Str (js "hello"))])
       (new_client 1 11 100 100 Undefined Undefined) Undefined (js "hello")
       Scenarios.two_tokens End _ _ _)) 500 false true _); reflexivity.
Defined.

End Requests.

(** ** server.js: the request *)

Section ServerRequest.
Import ServerMessage.

Lemma lookup_member_snoc (key k : jsstring) v ms :
  lookup_member key (ms ++ [(k, v)])
  = if jsstring_eqb k key then Some v else lookup_member key ms.
Proof.
  induction ms as [|[k' w] ms IH]; cbn; [done|].
  rewrite IH. by destruct (jsstring_eqb k key).
Qed.

Lemma lookup_member_replace_ne (key k : jsstring) v ms :
  key ≠ k → lookup_member key (replace_member k v ms) = lookup_member key ms.
Proof.
  intros Hne. induction ms as [|[k' w] ms IH]; cbn; [done|].
  rewrite IH. destruct (lookup_member key ms); [done|].
  unfold jsstring_eqb.
  destruct (bool_decide_reflect (k' = key)) as [->|_]; [|done].
  by rewrite bool_decide_eq_false_2.
Qed.

Lemma lookup_member_replace_eq (k : jsstring) v ms :
  is_Some (lookup_member k ms) →
  lookup_member k (replace_member k v ms) = Some v.
Proof.
  induction ms as [|[k' w] ms IH]; cbn; [by intros [? ?]|].
  destruct (lookup_member k ms) as [x|] eqn:Hl.
  - intros _. by rewrite IH.
  - unfold jsstring_eqb.
    destruct (bool_decide_reflect (k' = k)) as [->|_]; [|by intros [? ?]].
    intros _.
    assert (lookup_member k (replace_member k v ms) = None) as ->; [|done].
    clear IH. induction ms as [|[k'' w'] ms IH]; cbn in *; [done|].
    destruct (lookup_member k ms); [done|]. rewrite IH by done.
    unfold jsstring_eqb in *.
    by destruct (bool_decide_reflect (k'' = k)).
Qed.

(** X16.  The payload object server.js hands to [JSON.stringify] for a
    message that decodes to an object has the property [stream] with the
    value [true], whatever the message says of [stream], and under every
    other key the value [JSON.parse] gave the key. *)
Theorem stream_is_forced (OLLAMA_URL : jsstring)
    (errorMessage : error → jsstring) (msg : jsstring)
    (members : list (jsstring * value)) :
  JSON.parse msg = Some (Obj members) →
  ∃ members',
    snd (on_message OLLAMA_URL errorMessage msg) = Some (Obj members') ∧
    lookup_member (js "stream") members' = Some (Bool true) ∧
    (∀ key, key ≠ js "stream" →
       lookup_member key members' = lookup_member key members).
Proof.
  intros Hp. unfold on_message. rewrite Hp. cbn [set_stream snd].
  exists (set_member (js "stream") (Bool true) members).
  split; [reflexivity|]. unfold set_member.
  destruct (lookup_member (js "stream") members) as [x|] eqn:Hl.
  - split.
    + apply lookup_member_replace_eq. by rewrite Hl.
    + intros key Hkey. by apply lookup_member_replace_ne.
  - split.
    + rewrite lookup_member_snoc. reflexivity.
    + intros key Hkey. rewrite lookup_member_snoc. unfold jsstring_eqb.
      by rewrite bool_decide_eq_false_2.
Qed.

(** The theorem at a message that asks for no streaming. *)
Lemma stream_is_forced_witness :
  ∃ members',
    snd (on_message [] Scenarios.no_text Scenarios.generate_hello)
    = Some (Obj members') ∧
    lookup_member (js "stream") members' = Some (Bool true) ∧
    (∀ key, key ≠ js "stream" →
       lookup_member key members'
       = lookup_member key
           [(js "model", Str (js "m")); (js "prompt", Str (js "hello"));
            (js "stream", Bool false)]).
Proof.
  apply (stream_is_forced [] Scenarios.no_text Scenarios.generate_hello).
  vm_compute. reflexivity.
Defined.

(** X17.  server.js registers the stream handlers exactly when the message
    decodes to an object or an array and [fetch] gives a response that is
    [ok] and has a body; it has then made no call on the socket.  In every
    other case, a message that does not decode or decodes to [null] or to a
    primitive among them, it sends one error text and closes the socket,
    and makes no other call on the socket. *)
Theorem failure_closes_socket (OLLAMA_URL : jsstring)
    (errorMessage : error → jsstring) (msg : jsstring) (f : fetched) :
  (snd (handle OLLAMA_URL errorMessage msg f) = true ↔
   (∃ payload, JSON.parse msg = Some payload ∧
               ((∃ ms, payload = Obj ms) ∨ (∃ items, payload = Arr items))) ∧
   (∃ status, f = Response status true true)) ∧
  (snd (handle OLLAMA_URL errorMessage msg f) = true →
   ws_calls (fst (handle OLLAMA_URL errorMessage msg f)) = []) ∧
  (snd (handle OLLAMA_URL errorMessage msg f) = false →
   ws_calls (fst (handle OLLAMA_URL errorMessage msg f))
   = [WsSend INTERNAL_ERROR; WsClose] ∨
   ws_calls (fst (handle OLLAMA_URL errorMessage msg f))
   = [WsSend CONNECTING_ERROR; WsClose]).
Proof.
  unfold handle, on_message.
  destruct (JSON.parse msg) as [payload|].
  2:{ cbn. split; [|split]; [|done|by left].
      split; [done|]. by intros [(? & ? & _) _]. }
  destruct payload as [| |b|? ? ?|t|items|ms]; cbn [set_stream];
    try (cbn; split; [|split]; [|done|by left];
         split; [done|];
         intros [(? & ? & [[? ?]|[? ?]]) _]; simplify_eq).
  all: destruct f as [message|status [|] [|]]; cbn.
  all: split; [|split];
    [|first [done | intros _; reflexivity]
     |first [done | intros _; by left | intros _; by right]].
  all: split;
    [first [done | intros _; split; [eexists; split; [reflexivity|];
                                     first [left; by eexists
                                           |right; by eexists]
                                    |by eexists]]
    |first [done | intros [_ [? ?]]; simplify_eq]].
Qed.

(** The theorem at a message that is a number. *)
Lemma failure_closes_socket_witness :
  ws_calls (fst (handle [] Scenarios.no_text (js "5")
                   (Response 200 true true)))
  = [WsSend INTERNAL_ERROR; WsClose] ∨
  ws_calls (fst (handle [] Scenarios.no_text (js "5")
                   (Response 200 true true)))
  = [WsSend CONNECTING_ERROR; WsClose].
Proof.
  apply (failure_closes_socket [] Scenarios.no_text (js "5")
           (Response 200 true true)).
  vm_compute. reflexivity.
Defined.

End ServerRequest.

(** ** The end of a text that ends with a line feed *)

Section EndAfterLineFeed.

(** X18.  When the text of the chunks ends with a line feed, the buffer is
    empty at the end of the data and the end handler makes no call: the
    calls of the whole response are those of the data handler, in both
    servers. *)
Theorem nothing_left_after_line_feed (send_throws : value → bool)
    (chunks : list jsstring) (text : jsstring) :
  concat chunks = text ++ [LF] →
  fst (Server.feed send_throws [] chunks) = [] ∧
  Server.run send_throws chunks Server.End
  = snd (Server.feed send_throws [] chunks) ∧
  (∀ clientId ws model,
     Activity.run clientId ws model chunks Activity.End
     = snd (Activity.feed clientId ws model Activity.initial chunks)).
Proof.
  intros Htext.
  assert (kept (concat chunks) = []) as Hk
    by (rewrite Htext; apply kept_after_line_feed).
  destruct (server_feed_concat send_throws chunks []) as [Hb _];
    [apply not_elem_of_nil|].
  cbn [app] in Hb. rewrite Hk in Hb.
  split; [done|]. split.
  - unfold Server.run.
    destruct (Server.feed send_throws [] chunks) as [b calls].
    cbn in Hb. subst b. cbn. by rewrite app_nil_r.
  - intros. unfold Activity.run.
    rewrite activity_feed_concat by apply not_elem_of_nil.
    cbn [Activity.buffer Activity.initial app fst snd]. rewrite Hk.
    cbn. by rewrite app_nil_r.
Qed.

(** The theorem at two content records and the terminal record. *)
Lemma nothing_left_after_line_feed_witness :
  Server.run Examples.ws_rejects Scenarios.two_tokens Server.End
  = snd (Server.feed Examples.ws_rejects [] Scenarios.two_tokens).
Proof.
  apply (nothing_left_after_line_feed Examples.ws_rejects
           Scenarios.two_tokens
           (Examples.line "{'response':'a'}" ++ Examples.line "{'response':'b'}"
            ++ js "{'done':true}")).
  vm_compute. reflexivity.
Defined.

End EndAfterLineFeed.

(** ** A response the socket does not take *)

Section ThrowingSend.

(** X19.  In server.js, when [ws.send] throws on the truthy [response] of a
    record, the catch clause of the loop body takes the error for a failure
    of the decoding: the line is printed as bad JSON, the [done] field of
    the record is not looked at, so that no completion text is sent and the
    socket is not closed for it, and the loop goes on with the next
    line. *)
Theorem throwing_send_skips_done (send_throws : value → bool)
    (line : jsstring) (data response : value) (rest : list jsstring) :
  ¬ blank line → JSON.parse line = Some data →
  get data (js "response") = Returns response →
  truthy response = true → Server.throws send_throws response = true →
  Server.for_lines send_throws (line :: rest)
  = Server.ConsoleError Server.BAD_JSON line
    :: Server.for_lines send_throws rest.
Proof.
  intros Hb Hp Hr Ht Hs. apply trim_not_blank in Hb.
  cbn [Server.for_lines]. unfold Server.try_line.
  by rewrite Hb, Hp, Hr, Ht, Hs.
Qed.

(** The theorem at a terminal record whose [response] is [true], before a
    content record, on a socket that throws on a boolean. *)
Lemma throwing_send_skips_done_witness :
  Server.for_lines Examples.ws_rejects
    [js "{'response':true,'done':true}"; js "{'response':'a'}"]
  = [Server.ConsoleError Server.BAD_JSON (js "{'response':true,'done':true}");
     Server.WsSend (Str (js "a"))].
Proof.
  apply (throwing_send_skips_done Examples.ws_rejects
           (js "{'response':true,'done':true}")
           (Obj [(js "response", Bool true); (js "done", Bool true)])
           (Bool true) [js "{'response':'a'}"]).
  - intros H. apply trim_blank in H. vm_compute in H. discriminate.
  - vm_compute. reflexivity.
  - vm_compute. reflexivity.
  - reflexivity.
  - reflexivity.
Defined.

End ThrowingSend.
